(** * A shallow embedding of [xpath_syntax_tree.py]

    The module compiles a token stream of an XPath-like query into a flat
    list of [Expression]s and evaluates predicate trees against lists of
    document nodes.  This development embeds

    - the document nodes the code consumes ([x.name], [x.attrs],
      [x.find_all()]),
    - the expression classes and their [evaluate] methods,
    - [_predicate_to_postfix] (shunting-yard), [_predicate_postfix_to_tree]
      and [xpath_to_syntax_tree],

    and states the properties of the specification against them.

    Python exceptions are modelled by an error type; a Python [list] used as
    a stack is kept top-first (the head of the Rocq list is [stack[-1]]). *)

From Stdlib Require Import ZArith Ascii String.
From stdpp Require Import base tactics option list gmap strings.

Local Open Scope string_scope.
Local Open Scope list_scope.

Set Warnings "-clear-no-such-hyp".

(** ** Exceptions and results *)

Inductive exn : Type :=
| SyntaxError (msg : string)
| TypeError
| AttributeError
| NotImplementedError
| IndexError
| ValueError.

Inductive result (A : Type) : Type :=
| Ok (a : A)
| Raise (e : exn).
Arguments Ok {A} a.
Arguments Raise {A} e.

Definition bind {A B} (r : result A) (k : A → result B) : result B :=
  match r with
  | Ok a => k a
  | Raise e => Raise e
  end.

Notation "'let*' x ':=' r 'in' k" := (bind r (λ x, k))
  (at level 10, x name, r at level 100, k at level 200, only parsing).
Notation "'let*' ' p ':=' r 'in' k" := (bind r (λ p, k))
  (at level 10, p pattern, r at level 100, k at level 200, only parsing).

Definition invalid_arguments : string :=
  "Invalid arguments for comparison operator in XPATH".
Definition mismatched_operands : string :=
  "Mismatched operands for comparison in XPATH. Can not compare str and float.".

(** ** Document nodes

    The code never constructs nodes; it reads [x.name], [x.attrs], [x.text]
    and calls [x.find_all()].  A node is a tag with a name, a string-keyed
    attribute dictionary, a text and its child tags.  Python's [x in pos]
    and [set(...)] compare tags with [==], which is structural on tags, as
    is Rocq's equality on [Tag]. *)

#[warnings="-register-all"]
Inductive Tag : Type :=
  mkTag { name : string;
          attrs : gmap string string;
          text : string;
          contents : list Tag }.

(** [x.find_all()]: every tag below [x], in document order, [x] itself
    excluded. *)
Fixpoint find_all (x : Tag) : list Tag :=
  (fix below (cs : list Tag) : list Tag :=
     match cs with
     | [] => []
     | c :: cs' => c :: find_all c ++ below cs'
     end) (contents x).

Fixpoint Tag_eqb (x y : Tag) : bool :=
  bool_decide (name x = name y)
  && bool_decide (attrs x = attrs y)
  && bool_decide (text x = text y)
  && (fix all2 (l l' : list Tag) : bool :=
        match l, l' with
        | [], [] => true
        | a :: l, b :: l' => Tag_eqb a b && all2 l l'
        | _, _ => false
        end) (contents x) (contents y).

(** ** Python primitives used by the module *)

(** [x in l] on a list of tags. *)
Definition py_in (x : Tag) (l : list Tag) : bool := existsb (Tag_eqb x) l.

(** The values held by literals and attributes: [str] or [int]. *)
Inductive pyvalue : Type :=
| VStr (s : string)
| VInt (z : Z).

(** The six comparison classes; each [evaluate] differs only in the Python
    operator it applies. *)
Inductive comparison_class : Type :=
| GreaterThan
| GreaterThanOrEqual
| SmallerThan
| SmallerThanOrEqual
| Equal
| NotEqual.

Definition str_compare (op : comparison_class) (a b : string) : bool :=
  match op with
  | GreaterThan => String.ltb b a
  | GreaterThanOrEqual => String.leb b a
  | SmallerThan => String.ltb a b
  | SmallerThanOrEqual => String.leb a b
  | Equal => String.eqb a b
  | NotEqual => negb (String.eqb a b)
  end.

Definition int_compare (op : comparison_class) (a b : Z) : bool :=
  match op with
  | GreaterThan => (a >? b)%Z
  | GreaterThanOrEqual => (a >=? b)%Z
  | SmallerThan => (a <? b)%Z
  | SmallerThanOrEqual => (a <=? b)%Z
  | Equal => (a =? b)%Z
  | NotEqual => negb (a =? b)%Z
  end.

(** [a OP b] in Python 3: [str] and [int] order only among themselves; [==]
    and [!=] between a [str] and an [int] are [False] and [True]; an ordering
    between them raises [TypeError]. *)
Definition py_compare (op : comparison_class) (a b : pyvalue) : result bool :=
  match a, b with
  | VStr x, VStr y => Ok (str_compare op x y)
  | VInt x, VInt y => Ok (int_compare op x y)
  | _, _ =>
      match op with
      | Equal => Ok false
      | NotEqual => Ok true
      | _ => Raise TypeError
      end
  end.

(** [s.startswith(p)], [s.endswith(p)] and [p in s] on strings. *)
Fixpoint startswith (s p : string) {struct p} : bool :=
  match p with
  | EmptyString => true
  | String a p' =>
      match s with
      | String b s' => Ascii.eqb a b && startswith s' p'
      | EmptyString => false
      end
  end.

Fixpoint str_rev_onto (s acc : string) : string :=
  match s with
  | EmptyString => acc
  | String c s' => str_rev_onto s' (String c acc)
  end.

Definition endswith (s p : string) : bool :=
  startswith (str_rev_onto s EmptyString) (str_rev_onto p EmptyString).

Fixpoint str_contains (s p : string) : bool :=
  startswith s p
  || match s with
     | EmptyString => false
     | String _ s' => str_contains s' p
     end.

Definition is_digit (c : ascii) : bool :=
  (48 <=? nat_of_ascii c)%nat && (nat_of_ascii c <=? 57)%nat.

Definition is_alpha (c : ascii) : bool :=
  ((65 <=? nat_of_ascii c)%nat && (nat_of_ascii c <=? 90)%nat)
  || ((97 <=? nat_of_ascii c)%nat && (nat_of_ascii c <=? 122)%nat).

(** The ASCII characters for which [str.isspace] holds. *)
Definition is_space (c : ascii) : bool :=
  ((9 <=? nat_of_ascii c)%nat && (nat_of_ascii c <=? 13)%nat)
  || ((28 <=? nat_of_ascii c)%nat && (nat_of_ascii c <=? 32)%nat).

(** [re.compile('^[0-9]+').match(t)]: the token begins with a digit. *)
Definition starts_with_digit (t : string) : bool :=
  match t with
  | String c _ => is_digit c
  | EmptyString => false
  end.

(** [re.compile('^[a-zA-Z]+$').match(t)]: one letter or more, then the end of
    the string; Python's [$] also matches before one final newline. *)
Fixpoint letters_then_end (t : string) : bool :=
  match t with
  | EmptyString => true
  | String c EmptyString => is_alpha c || (nat_of_ascii c =? 10)%nat
  | String c t' => is_alpha c && letters_then_end t'
  end.

Definition is_tag_name (t : string) : bool :=
  match t with
  | String c _ => is_alpha c && letters_then_end t
  | EmptyString => false
  end.

(** [int(t)] for a token that begins with a digit: decimal digits, single
    underscores allowed between digits, white space allowed around them;
    anything else raises [ValueError].  Tokens are read as ASCII strings. *)
Fixpoint int_digits (s : string) (acc : Z) (after_digit : bool) : option Z :=
  match s with
  | EmptyString => if after_digit then Some acc else None
  | String c s' =>
      if is_digit c then
        int_digits s' (10 * acc + Z.of_nat (nat_of_ascii c - 48))%Z true
      else if Ascii.eqb c "_" && after_digit then int_digits s' acc false
      else None
  end.

Fixpoint lstrip (s : string) : string :=
  match s with
  | String c s' => if is_space c then lstrip s' else s
  | EmptyString => EmptyString
  end.

Definition strip (s : string) : string :=
  str_rev_onto (lstrip (str_rev_onto (lstrip s) EmptyString)) EmptyString.

Definition py_int (t : string) : result Z :=
  match int_digits (strip t) 0 false with
  | Some z => Ok z
  | None => Raise ValueError
  end.

(** A list comprehension [[x for x in l if f x]] whose condition may raise. *)
Fixpoint comprehension (f : Tag → result bool) (l : list Tag) : result (list Tag) :=
  match l with
  | [] => Ok []
  | x :: l' =>
      let* b := f x in
      let* r := comprehension f l' in
      Ok (if b then x :: r else r)
  end.

(** ** Expressions

    The nodes [_predicate_postfix_to_tree] builds: literals, comparisons,
    logical and text predicates.  [child0] and [child1] are [children[0]]
    and [children[1]]; the [parent] link is never read and is left out. *)

Inductive Expression : Type :=
| AttributeName (value : string)
| StringLiteral (value : string)
| NumberLiteral (value : Z)
| Comparison (op : comparison_class) (child0 child1 : Expression)
| LogicalAnd (child0 child1 : Expression)
| LogicalOr (child0 child1 : Expression)
| LogicalNot (child0 : Expression)
| TextContains (child0 child1 : Expression)
| TextStartsWith (child0 child1 : Expression)
| TextEndsWith (child0 child1 : Expression)
| TextLength (child0 : Expression).

(** The entries of the list [xpath_to_syntax_tree] returns: the path steps
    and the roots of the predicate trees. *)
Inductive Step : Type :=
| SelectFromRootNode
| SelectAll
| SelectStar
| SelectHTMLTag (tag_name : string)
| SelectText
| SelectAttribute (attribute_name : string)
| PredicateRoot (root : Expression).

Definition is_AttributeName (e : Expression) : bool :=
  match e with AttributeName _ => true | _ => false end.
Definition is_StringLiteral (e : Expression) : bool :=
  match e with StringLiteral _ => true | _ => false end.
Definition is_NumberLiteral (e : Expression) : bool :=
  match e with NumberLiteral _ => true | _ => false end.

(** [e.__class__.__name__ in ['AttributeName', 'NumberLiteral', 'StringLiteral']] *)
Definition is_operand_class (e : Expression) : bool :=
  is_AttributeName e || is_NumberLiteral e || is_StringLiteral e.

(** [e.value]; only the three operand classes have the attribute. *)
Definition value_of (e : Expression) : result pyvalue :=
  match e with
  | AttributeName v => Ok (VStr v)
  | StringLiteral v => Ok (VStr v)
  | NumberLiteral z => Ok (VInt z)
  | _ => Raise AttributeError
  end.

(** [x.attrs[k]] guarded by [k in x.attrs]; the keys of [x.attrs] are
    strings, so an [int] key is never present. *)
Definition attr_lookup (x : Tag) (k : pyvalue) : option string :=
  match k with
  | VStr a => attrs x !! a
  | VInt _ => None
  end.

Definition _check_arguments (r l : Expression) : result unit :=
  if negb (is_operand_class l) then Raise (SyntaxError invalid_arguments)
  else if negb (is_operand_class r) then Raise (SyntaxError invalid_arguments)
  else if is_NumberLiteral l && is_StringLiteral r then
    Raise (SyntaxError mismatched_operands)
  else if is_StringLiteral l && is_NumberLiteral r then
    Raise (SyntaxError mismatched_operands)
  else Ok tt.

Definition NodeSets : Type := list Tag * list Tag.

(** [evaluate] of the six comparison classes, with [r = children[0]] and
    [l = children[1]].  The first test reads [l] twice, as the source does. *)
Definition Comparison_evaluate (op : comparison_class) (r l : Expression)
    (node_set_pos node_set_neg : list Tag) : result (option NodeSets) :=
  let* _ := _check_arguments r l in
  if negb (is_AttributeName l) && negb (is_AttributeName l) then
    let* lv := value_of l in
    let* rv := value_of r in
    let* b := py_compare op lv rv in
    if b then Ok (Some (node_set_pos, node_set_neg))
    else Ok (Some ([], node_set_pos))
  else if is_AttributeName l && is_AttributeName r then
    let* lv := value_of l in
    let* rv := value_of r in
    let* pos :=
      comprehension
        (λ x, match attr_lookup x lv, attr_lookup x rv with
              | Some a, Some b => py_compare op (VStr a) (VStr b)
              | _, _ => Ok false
              end) node_set_pos in
    let neg := List.filter (λ x, negb (py_in x pos)) node_set_pos in
    Ok (Some (pos, neg))
  else if is_AttributeName l then
    let* lv := value_of l in
    let* rv := value_of r in
    let* pos :=
      comprehension
        (λ x, match attr_lookup x lv with
              | Some a => py_compare op (VStr a) rv
              | None => Ok false
              end) node_set_pos in
    let neg := List.filter (λ x, negb (py_in x pos)) node_set_pos in
    Ok (Some (pos, neg))
  else if is_AttributeName r then
    let* lv := value_of l in
    let* rv := value_of r in
    let* pos :=
      comprehension
        (λ x, match attr_lookup x rv with
              | Some a => py_compare op lv (VStr a)
              | None => Ok false
              end) node_set_pos in
    let neg := List.filter (λ x, negb (py_in x pos)) node_set_pos in
    Ok (Some (pos, neg))
  else Ok None.

(** The three text predicates share their body up to the string test.
    [atr] and [val] start as [None] and are assigned together. *)
Inductive text_class : Type :=
| Contains
| StartsWith
| EndsWith.

Definition text_test (k : text_class) (s val : string) : bool :=
  match k with
  | Contains => str_contains s val
  | StartsWith => startswith s val
  | EndsWith => endswith s val
  end.

Definition text_arguments (child0 child1 : Expression) : option (string * string) :=
  let first :=
    match child0, child1 with
    | AttributeName a, StringLiteral v => Some (a, v)
    | _, _ => None
    end in
  match child1, child0 with
  | AttributeName a, StringLiteral v => Some (a, v)
  | _, _ => first
  end.

Definition Text_evaluate (k : text_class) (child0 child1 : Expression)
    (node_set_pos node_set_neg : list Tag) : result (option NodeSets) :=
  let args := text_arguments child0 child1 in
  let holds (x : Tag) : bool :=
    match args with
    | Some (atr, val) =>
        match attrs x !! atr with
        | Some s => text_test k s val
        | None => false
        end
    | None => false
    end in
  let fails (x : Tag) : bool :=
    match args with
    | Some (atr, val) =>
        match attrs x !! atr with
        | Some s => negb (text_test k s val)
        | None => true
        end
    | None => true
    end in
  Ok (Some (List.filter holds node_set_pos, List.filter fails node_set_pos)).

(** [(a, b) = child.evaluate(...)]: unpacking [None] raises [TypeError]. *)
Definition unpack (r : result (option NodeSets)) : result NodeSets :=
  let* v := r in
  match v with
  | Some p => Ok p
  | None => Raise TypeError
  end.

Section Evaluate.

(** [list(set(l))]: the elements of [l] without repetition, in the order in
    which the interpreter happens to iterate over the set.  The order is
    left open: [evaluate] takes the function as a parameter, and
    [list(set(c) | set(a))] is read as [set_to_list (c ++ a)]. *)
Variable set_to_list : list Tag → list Tag.

Fixpoint evaluate (e : Expression) (node_set_pos node_set_neg : list Tag)
    : result (option NodeSets) :=
  match e with
  | AttributeName _ | StringLiteral _ | NumberLiteral _ => Ok None
  | Comparison op child0 child1 =>
      Comparison_evaluate op child0 child1 node_set_pos node_set_neg
  | LogicalAnd child0 child1 =>
      let* '(a, b) := unpack (evaluate child0 node_set_pos node_set_neg) in
      let* '(c, d) := unpack (evaluate child0 node_set_pos node_set_neg) in
      let pos := List.filter (λ x, py_in x c) a in
      let neg :=
        set_to_list (List.filter (λ x, negb (py_in x pos)) (a ++ b ++ c ++ d)) in
      Ok (Some (pos, neg))
  | LogicalOr child0 child1 =>
      let* '(a, b) := unpack (evaluate child0 node_set_pos node_set_neg) in
      let* '(c, d) := unpack (evaluate child0 node_set_pos node_set_neg) in
      let pos := set_to_list (c ++ a) in
      let neg :=
        set_to_list (List.filter (λ x, negb (py_in x pos)) (a ++ b ++ c ++ d)) in
      Ok (Some (pos, neg))
  | LogicalNot _ => Ok (Some (node_set_neg, node_set_pos))
  | TextContains child0 child1 =>
      Text_evaluate Contains child0 child1 node_set_pos node_set_neg
  | TextStartsWith child0 child1 =>
      Text_evaluate StartsWith child0 child1 node_set_pos node_set_neg
  | TextEndsWith child0 child1 =>
      Text_evaluate EndsWith child0 child1 node_set_pos node_set_neg
  | TextLength _ => Raise NotImplementedError
  end.

End Evaluate.

(** One possible iteration order, for running [evaluate] on concrete
    inputs: every element once, at the place of its last occurrence. *)
Fixpoint dedup (l : list Tag) : list Tag :=
  match l with
  | [] => []
  | x :: l' => if py_in x l' then dedup l' else x :: dedup l'
  end.

(** ** Path steps *)

(** [SelectAll.evaluate]: two nested loops appending to [o]. *)
Definition SelectAll_evaluate (node_set_pos node_set_neg : list Tag) : NodeSets :=
  let o :=
    fold_left
      (λ o x, fold_left (λ o y, o ++ [y]) (find_all x) o)
      node_set_pos [] in
  (o, []).

(** [SelectStar.evaluate] calls [super().evaluate]. *)
Definition SelectStar_evaluate (node_set_pos node_set_neg : list Tag) : NodeSets :=
  SelectAll_evaluate node_set_pos node_set_neg.

Definition SelectFromRootNode_evaluate (node_set_pos node_set_neg : list Tag)
    : NodeSets :=
  (node_set_pos, node_set_neg).


Definition SelectText_evaluate (node_set_pos node_set_neg : list Tag) : list string :=
  map text node_set_pos.

Definition SelectAttribute_evaluate (attribute_name : string)
    (node_set_pos node_set_neg : list Tag) : list string :=
  map (λ x, match attrs x !! attribute_name with
            | Some v => v
            | None => EmptyString
            end) node_set_pos.

(** ** The predicate compiler *)

Definition in_list (t : string) (l : list string) : bool :=
  existsb (String.eqb t) l.

Definition l_b : list string := ["("; "{"; "["].
Definition r_b : list string := [")"; "}"; "]"].

Definition _precedence (xpath_operator : string) : nat :=
  if String.eqb xpath_operator "=" then 1
  else if String.eqb xpath_operator "or" then 2
  else if String.eqb xpath_operator "and" then 3
  else if in_list xpath_operator [">"; ">="; "<"; "<="] then 4
  else if in_list xpath_operator ["+"; "-"] then 5
  else if in_list xpath_operator ["mul"; "div"] then 6
  else if String.eqb xpath_operator "not" then 7
  else 8.

Definition _is_left_associative (xpath_operator : string) : bool := true.

(** The loop run at a right bracket: while the stack is not empty and its top
    is not a left bracket, move the top to the output. *)
Fixpoint pop_to_bracket (operator_stack out : list string)
    : list string * list string :=
  match operator_stack with
  | [] => ([], out)
  | top :: below =>
      if negb (in_list top l_b) then pop_to_bracket below (out ++ [top])
      else (operator_stack, out)
  end.

(** The loop run at an operator [t]. *)
Fixpoint pop_operators (t : string) (operator_stack out : list string)
    : list string * list string :=
  match operator_stack with
  | [] => ([], out)
  | top :: below =>
      if negb (in_list top l_b)
         && ((_precedence t <? _precedence top)%nat
             || ((_precedence top =? _precedence t)%nat
                 && _is_left_associative t))
      then pop_operators t below (out ++ [top])
      else (operator_stack, out)
  end.

(** An operand, as [_predicate_to_postfix] sees it. *)
Definition is_operand (t : string) : bool :=
  startswith t "@" || startswith t "'".

(** The main loop of [_predicate_to_postfix], from token [i] on. *)
Fixpoint postfix_loop (tokens operator_stack out : list string)
    : result (list string) :=
  match tokens with
  | [] => Ok out
  | t :: rest =>
      if String.eqb t "," then postfix_loop rest operator_stack out
      else if String.eqb t " " then postfix_loop rest operator_stack out
      else if in_list t l_b then postfix_loop rest (t :: operator_stack) out
      else if in_list t r_b then
        let '(stack1, out1) := pop_to_bracket operator_stack out in
        match stack1 with
        | [] => Raise IndexError
        | top :: below =>
            if in_list top l_b then postfix_loop rest below out1
            else postfix_loop rest stack1 out1
        end
      else if is_operand t then postfix_loop rest operator_stack (out ++ [t])
      else
        let '(stack1, out1) := pop_operators t operator_stack out in
        postfix_loop rest (t :: stack1) out1
  end.

Definition _predicate_to_postfix (xpath_predicate_expression : list string)
    : result (list string) :=
  postfix_loop xpath_predicate_expression [] [].

(** [tree.pop(-1)] *)
Definition pop (tree : list Expression) : result (Expression * list Expression) :=
  match tree with
  | [] => Raise IndexError
  | top :: below => Ok (top, below)
  end.

(** [tree.append(C().add_child(tree.pop(-1)).add_child(tree.pop(-1)))] *)
Definition reduce2 (C : Expression → Expression → Expression)
    (tree : list Expression) : result (list Expression) :=
  let* '(c0, tree1) := pop tree in
  let* '(c1, tree2) := pop tree1 in
  Ok (C c0 c1 :: tree2).

(** [tree.append(C().add_child(tree.pop(-1)))] *)
Definition reduce1 (C : Expression → Expression) (tree : list Expression)
    : result (list Expression) :=
  let* '(c0, tree1) := pop tree in
  Ok (C c0 :: tree1).

(** [t[1:]] and [t[1:len(t)-1]] *)
Definition drop_first (t : string) : string :=
  substring 1 (String.length t - 1) t.
Definition strip_quotes (t : string) : string :=
  substring 1 (String.length t - 2) t.

(** One iteration of the loop of [_predicate_postfix_to_tree]. *)
Definition tree_step (tree : list Expression) (t : string)
    : result (list Expression) :=
  if startswith t "@" then Ok (AttributeName (drop_first t) :: tree)
  else if startswith t "'" then Ok (StringLiteral (strip_quotes t) :: tree)
  else if starts_with_digit t then
    let* n := py_int t in Ok (NumberLiteral n :: tree)
  else if String.eqb t ">" then reduce2 (Comparison GreaterThan) tree
  else if String.eqb t ">=" then reduce2 (Comparison GreaterThanOrEqual) tree
  else if String.eqb t "<" then reduce2 (Comparison SmallerThan) tree
  else if String.eqb t "<=" then reduce2 (Comparison SmallerThanOrEqual) tree
  else if String.eqb t "=" then reduce2 (Comparison Equal) tree
  else if String.eqb t "!=" then reduce2 (Comparison NotEqual) tree
  else if String.eqb t "and" then reduce2 LogicalAnd tree
  else if String.eqb t "or" then reduce2 LogicalOr tree
  else if String.eqb t "not" then reduce1 LogicalNot tree
  else if String.eqb t "ends-with" then reduce2 TextEndsWith tree
  else if String.eqb t "starts-with" then reduce2 TextStartsWith tree
  else if String.eqb t "contains" then reduce2 TextContains tree
  else if String.eqb t "length" then reduce1 TextLength tree
  else Ok tree.

Fixpoint tree_loop (postfix : list string) (tree : list Expression)
    : result (list Expression) :=
  match postfix with
  | [] => Ok tree
  | t :: rest =>
      let* tree1 := tree_step tree t in
      tree_loop rest tree1
  end.

(** [tree[0]]: the bottom of the stack. *)
Definition bottom (tree : list Expression) : result Expression :=
  match last tree with
  | Some e => Ok e
  | None => Raise IndexError
  end.

Definition _predicate_postfix_to_tree
    (xpath_postfix_predicate_expression : list string) : result Expression :=
  let* tree := tree_loop xpath_postfix_predicate_expression [] in
  bottom tree.

(** How [xpath_to_syntax_tree] compiles a bracketed slice:
    [_predicate_postfix_to_tree(_predicate_to_postfix(slice))]. *)
Definition compile_predicate (slice : list string) : result Expression :=
  let* postfix := _predicate_to_postfix slice in
  _predicate_postfix_to_tree postfix.

(** ** The path compiler *)

(** [tokens.index(t, i) - i], on the tokens from [i] on. *)
Fixpoint index (t : string) (tokens : list string) : result nat :=
  match tokens with
  | [] => Raise ValueError
  | u :: rest =>
      if String.eqb u t then Ok 0
      else let* j := index t rest in Ok (S j)
  end.

(** The loop of [xpath_to_syntax_tree] on the tokens from [i] on.  A jump
    of [i] past the next token is kept as the number [skip] of tokens still
    to pass over. *)
Fixpoint syntax_loop (tokens : list string) (skip : nat) (nodes : list Step)
    : result (list Step) :=
  match tokens with
  | [] => Ok nodes
  | t :: rest =>
      match skip with
      | S k => syntax_loop rest k nodes
      | 0 =>
          if String.eqb t "[" then
            let* j := index "]" tokens in
            let* root := compile_predicate (take (S j) tokens) in
            syntax_loop rest j (nodes ++ [PredicateRoot root])
          else if String.eqb t "/" then
            syntax_loop rest 0 (nodes ++ [SelectFromRootNode])
          else if String.eqb t "//" then
            syntax_loop rest 0 (nodes ++ [SelectAll])
          else if String.eqb t "*" then
            syntax_loop rest 0 (nodes ++ [SelectStar])
          else if startswith t "@" then
            syntax_loop rest 0 (nodes ++ [SelectAttribute (drop_first t)])
          else if String.eqb t "text" then
            let nodes1 := nodes ++ [SelectText] in
            match rest with
            | [] => Raise IndexError
            | t1 :: rest1 =>
                if String.eqb t1 "(" then
                  match rest1 with
                  | [] => Raise IndexError
                  | t2 :: _ =>
                      if String.eqb t2 ")" then syntax_loop rest 2 nodes1
                      else syntax_loop rest 0 nodes1
                  end
                else syntax_loop rest 0 nodes1
            end
          else if is_tag_name t then
            syntax_loop rest 0 (nodes ++ [SelectHTMLTag t])
          else syntax_loop rest 0 nodes
      end
  end.

(** [xpath_to_syntax_tree] after tokenization: the tokenizer is a separate
    module, so the function is taken from its token list on. *)
Definition xpath_to_syntax_tree (tokens : list string) : result (list Step) :=
  syntax_loop tokens 0 [].

(** ** Definitions used to state the properties *)

(** Induction on tags that reaches the child tags. *)
Section Tag_induction.
Variable P : Tag → Prop.
Hypothesis step : ∀ n a t cs, Forall P cs → P (mkTag n a t cs).

Fixpoint Tag_nested_ind (x : Tag) : P x :=
  match x with
  | mkTag n a t cs =>
      step n a t cs
        ((fix go (l : list Tag) : Forall P l :=
            match l with
            | [] => List.Forall_nil P
            | c :: l' => List.Forall_cons P c l' (Tag_nested_ind c) (go l')
            end) cs)
  end.
End Tag_induction.

(** Exactly one child is an [AttributeName] and the other a [StringLiteral]. *)
Definition one_attribute_one_string (child0 child1 : Expression) : bool :=
  (is_AttributeName child0 && is_StringLiteral child1)
  || (is_AttributeName child1 && is_StringLiteral child0).


(** The number of tags in the tree rooted at [x]. *)
Fixpoint Tag_size (x : Tag) : nat :=
  S ((fix sum (cs : list Tag) : nat :=
        match cs with
        | [] => 0
        | c :: cs' => Tag_size c + sum cs'
        end) (contents x)).

(** The expansion claimed for the [//] step: each node, then what is below
    it. *)
Definition self_then_descendants (nodes : list Tag) : list Tag :=
  flat_map (λ x, x :: find_all x) nodes.

(** The token of each comparison class. *)
Definition comparison_token (op : comparison_class) : string :=
  match op with
  | GreaterThan => ">"
  | GreaterThanOrEqual => ">="
  | SmallerThan => "<"
  | SmallerThanOrEqual => "<="
  | Equal => "="
  | NotEqual => "!="
  end.

(** The four ordering operators, as opposed to [=] and [!=]. *)
Definition is_ordering (op : comparison_class) : bool :=
  match op with
  | Equal | NotEqual => false
  | _ => true
  end.

(** The test claimed for a comparison between the attribute [a] and a string
    literal [v]: the attribute is present and the comparison holds, with the
    attribute on the left ([@a OP 'v']) or on the right (['v' OP @a]). *)
Definition attribute_on_left (op : comparison_class) (a v : string) (x : Tag)
    : bool :=
  match attrs x !! a with
  | Some s => str_compare op s v
  | None => false
  end.

Definition attribute_on_right (op : comparison_class) (v a : string) (x : Tag)
    : bool :=
  match attrs x !! a with
  | Some s => str_compare op v s
  | None => false
  end.

(** The predicates whose outputs are drawn from the input selected list
    alone: text predicates, comparisons whose second child is an attribute
    name, and the logical combinators over such a first child. *)
Fixpoint selects_from_input (e : Expression) : bool :=
  match e with
  | Comparison _ _ l => is_AttributeName l
  | TextContains _ _ | TextStartsWith _ _ | TextEndsWith _ _ => true
  | LogicalAnd child0 _ | LogicalOr child0 _ => selects_from_input child0
  | _ => false
  end.

(** The number of [tree.pop(-1)] calls the tree builder runs at token [t]. *)
Definition pops (t : string) : nat :=
  if startswith t "@" || startswith t "'" || starts_with_digit t then 0
  else if in_list t [">"; ">="; "<"; "<="; "="; "!="; "and"; "or"] then 2
  else if String.eqb t "not" then 1
  else if in_list t ["ends-with"; "starts-with"; "contains"] then 2
  else if String.eqb t "length" then 1
  else 0.

(** Every node of the outputs [s], [r] is a node of the inputs [pos], [neg];
    no node of [s] is in [r]. *)
Definition drawn_from (s r pos neg : list Tag) : Prop :=
  ∀ x, x ∈ s ++ r → x ∈ pos ++ neg.

Definition disjoint (s r : list Tag) : Prop := ∀ x, x ∈ s → x ∉ r.


(** ** Further definitions used to state properties of the code *)

(** The pairs of operand classes [_check_arguments] lets through: an
    attribute name on either side, or two literals of the same class. *)
Definition comparable_classes (r l : Expression) : bool :=
  is_operand_class r && is_operand_class l
  && (is_AttributeName r || is_AttributeName l
      || (is_StringLiteral r && is_StringLiteral l)
      || (is_NumberLiteral r && is_NumberLiteral l)).

(** Both attributes are present on [x] and [x.attrs[a] OP x.attrs[b]]. *)
Definition both_attributes (op : comparison_class) (a b : string) (x : Tag)
    : bool :=
  match attrs x !! a, attrs x !! b with
  | Some s, Some t => str_compare op s t
  | _, _ => false
  end.

Definition has_attribute (a : string) (x : Tag) : bool :=
  match attrs x !! a with
  | Some _ => true
  | None => false
  end.

(** The attribute [a] is present on [x] and passes the string test [k]
    against [v]. *)
Definition attribute_passes (k : text_class) (a v : string) (x : Tag) : bool :=
  match attrs x !! a with
  | Some s => text_test k s v
  | None => false
  end.

(** The constructor of each text predicate class. *)
Definition text_predicate (k : text_class) : Expression → Expression → Expression :=
  match k with
  | Contains => TextContains
  | StartsWith => TextStartsWith
  | EndsWith => TextEndsWith
  end.

(** The tokens the shunting-yard pass skips. *)
Definition is_separator (t : string) : bool :=
  String.eqb t "," || String.eqb t " ".

(** A token that is neither skipped nor a bracket: an operand or an
    operator. *)
Definition is_payload (t : string) : bool :=
  negb (is_separator t) && negb (in_list t l_b) && negb (in_list t r_b).

(** The number of left brackets on the operator stack. *)
Definition count_open (operator_stack : list string) : nat :=
  List.length (List.filter (λ u, in_list u l_b) operator_stack).

(** Every right bracket of [tokens] finds a left bracket still open, when
    [depth] left brackets are open at the start; brackets of different
    shapes close each other. *)
Fixpoint brackets_close (tokens : list string) (depth : nat) : bool :=
  match tokens with
  | [] => true
  | t :: rest =>
      if is_separator t then brackets_close rest depth
      else if in_list t l_b then brackets_close rest (S depth)
      else if in_list t r_b then
        match depth with
        | 0 => false
        | S d => brackets_close rest d
        end
      else brackets_close rest depth
  end.

(** The leaf the tree builder pushes for an operand token that begins with
    [@] or a quote. *)
Definition leaf (t : string) : Expression :=
  if startswith t "@" then AttributeName (drop_first t)
  else StringLiteral (strip_quotes t).

(** The tokens for which the tree builder pushes a leaf. *)
Definition pushes (t : string) : bool :=
  startswith t "@" || startswith t "'" || starts_with_digit t.

(** The token of each text predicate class. *)
Definition text_token (k : text_class) : string :=
  match k with
  | Contains => "contains"
  | StartsWith => "starts-with"
  | EndsWith => "ends-with"
  end.

(** The step the path compiler appends for a token that is neither [[]
    nor [text]; [None] for a token it passes over. *)
Definition step_of_token (t : string) : option Step :=
  if String.eqb t "/" then Some SelectFromRootNode
  else if String.eqb t "//" then Some SelectAll
  else if String.eqb t "*" then Some SelectStar
  else if startswith t "@" then Some (SelectAttribute (drop_first t))
  else if is_tag_name t then Some (SelectHTMLTag t)
  else None.

(** A token that starts neither a predicate nor a text step. *)
Definition is_plain (t : string) : bool :=
  negb (String.eqb t "[") && negb (String.eqb t "text").
(** * Properties *)

(** ** Equality and membership of tags *)

Lemma Tag_eqb_spec (x y : Tag) : Tag_eqb x y = true ↔ x = y.
Proof.
  revert y. induction x as [n a t cs IH] using Tag_nested_ind.
  intros [n' a' t' cs']. cbn [Tag_eqb name attrs text contents].
  rewrite !andb_true_iff, !bool_decide_eq_true.
  assert (Hcs : (fix all2 (l l' : list Tag) : bool :=
                   match l, l' with
                   | [], [] => true
                   | a :: l, b :: l' => Tag_eqb a b && all2 l l'
                   | _, _ => false
                   end) cs cs' = true ↔ cs = cs').
  { revert cs'. induction IH as [|c cs Hc _ IHcs]; intros [|c' cs']; try done.
    rewrite andb_true_iff, Hc, IHcs. split; [intros [-> ->]; done | by inversion 1]. }
  rewrite Hcs. split; [intros [[[-> ->] ->] ->]; done | by inversion 1].
Qed.

Lemma py_in_spec (x : Tag) (l : list Tag) : py_in x l = true ↔ x ∈ l.
Proof.
  unfold py_in. rewrite existsb_exists, list_elem_of_In. split.
  - intros (y & Hy & E). apply Tag_eqb_spec in E. by subst.
  - intros H. exists x. split; [done | by apply Tag_eqb_spec].
Qed.

Lemma py_in_false (x : Tag) (l : list Tag) : py_in x l = false ↔ x ∉ l.
Proof. rewrite <- py_in_spec. destruct (py_in x l); naive_solver. Qed.

Lemma elem_of_bool_filter (f : Tag → bool) (l : list Tag) (x : Tag) :
  x ∈ List.filter f l ↔ x ∈ l ∧ f x = true.
Proof. rewrite !list_elem_of_In. apply filter_In. Qed.

Lemma bool_filter_none (f : Tag → bool) (l : list Tag) :
  (∀ x, f x = false) → List.filter f l = [].
Proof. intros H. induction l as [|x l IH]; simpl; [done | by rewrite H]. Qed.

Lemma bool_filter_all (f : Tag → bool) (l : list Tag) :
  (∀ x, f x = true) → List.filter f l = l.
Proof. intros H. induction l as [|x l IH]; simpl; [done | by rewrite H, IH]. Qed.

(** ** LogicalNot *)

(** C9.  [LogicalNot.evaluate] returns [(rejected, selected)] whatever its
    child is (the child is not evaluated: the result is the same for a child
    whose own evaluation raises), and applying it twice gives back the
    original pair. *)
Theorem LogicalNot_swaps_and_is_involutive
    (set_to_list : list Tag → list Tag) (child child' : Expression)
    (selected rejected : list Tag) :
  evaluate set_to_list (LogicalNot child) selected rejected
    = Ok (Some (rejected, selected))
  ∧ (let* '(s, r) :=
       unpack (evaluate set_to_list (LogicalNot child) selected rejected) in
     evaluate set_to_list (LogicalNot child') s r)
    = Ok (Some (selected, rejected)).
Proof. split; reflexivity. Qed.

(** ** Text predicates *)

Lemma text_arguments_none (child0 child1 : Expression) :
  one_attribute_one_string child0 child1 = false →
  text_arguments child0 child1 = None.
Proof.
  unfold one_attribute_one_string, text_arguments.
  destruct child0, child1; simpl; (done || discriminate).
Qed.

Lemma Text_evaluate_without_arguments (k : text_class)
    (child0 child1 : Expression) (selected rejected : list Tag) :
  one_attribute_one_string child0 child1 = false →
  Text_evaluate k child0 child1 selected rejected = Ok (Some ([], selected)).
Proof.
  intros H. unfold Text_evaluate. rewrite (text_arguments_none _ _ H).
  by rewrite bool_filter_none, bool_filter_all.
Qed.

(** C10.  A text predicate whose children are not one attribute name and one
    string literal raises nothing: it selects no node and rejects every
    node of the input selected list. *)
Theorem text_predicate_wrong_children_rejects_all
    (set_to_list : list Tag → list Tag) (child0 child1 : Expression)
    (selected rejected : list Tag) :
  one_attribute_one_string child0 child1 = false →
  evaluate set_to_list (TextContains child0 child1) selected rejected
    = Ok (Some ([], selected))
  ∧ evaluate set_to_list (TextStartsWith child0 child1) selected rejected
    = Ok (Some ([], selected))
  ∧ evaluate set_to_list (TextEndsWith child0 child1) selected rejected
    = Ok (Some ([], selected)).
Proof.
  intros H. cbn [evaluate].
  by rewrite !Text_evaluate_without_arguments.
Qed.

Lemma text_predicate_wrong_children_witness :
  let x := mkTag "div" {[ "a" := "abc" ]} "" [] in
  evaluate dedup
    (TextContains (AttributeName "a") (AttributeName "b")) [x] []
    = Ok (Some ([], [x]))
  ∧ evaluate dedup
      (TextStartsWith (AttributeName "a") (AttributeName "b")) [x] []
    = Ok (Some ([], [x]))
  ∧ evaluate dedup
      (TextEndsWith (AttributeName "a") (AttributeName "b")) [x] []
    = Ok (Some ([], [x])).
Proof.
  intros x.
  apply (text_predicate_wrong_children_rejects_all dedup
           (AttributeName "a") (AttributeName "b") [x] []).
  reflexivity.
Defined.

(** ** The [//] and [*] steps *)

Lemma append_each (l o : list Tag) : fold_left (λ o y, o ++ [y]) l o = o ++ l.
Proof.
  revert o. induction l as [|y l IH]; intros o; simpl.
  - by rewrite app_nil_r.
  - by rewrite IH, <- app_assoc.
Qed.

Lemma SelectAll_loop (nodes o : list Tag) :
  fold_left (λ o x, fold_left (λ o y, o ++ [y]) (find_all x) o) nodes o
  = o ++ flat_map find_all nodes.
Proof.
  revert o. induction nodes as [|x nodes IH]; intros o; simpl.
  - by rewrite app_nil_r.
  - by rewrite IH, append_each, <- app_assoc.
Qed.

Lemma find_all_smaller (x y : Tag) : y ∈ find_all x → Tag_size y < Tag_size x.
Proof.
  revert y. induction x as [n a t cs IH] using Tag_nested_ind.
  intros y. cbn [find_all Tag_size contents].
  induction IH as [|c cs Hc _ IHcs]; intros Hy.
  - by apply elem_of_nil in Hy.
  - apply elem_of_cons in Hy as [-> | Hy]; [lia |].
    apply elem_of_app in Hy as [Hy | Hy].
    + specialize (Hc _ Hy). lia.
    + specialize (IHcs Hy). lia.
Qed.

Lemma find_all_excludes_self (x : Tag) : x ∉ find_all x.
Proof. intros H. apply find_all_smaller in H. lia. Qed.

(** C7, as the code has it.  [SelectAll.evaluate], and [SelectStar.evaluate]
    which calls it, return as selected list the concatenation, over the nodes
    of the input selected list in order, of what [find_all] enumerates below
    each node; a node is never part of its own enumeration; the rejected list
    is empty. *)
Theorem SelectAll_selects_descendants_only (selected rejected : list Tag) :
  SelectAll_evaluate selected rejected = (flat_map find_all selected, [])
  ∧ SelectStar_evaluate selected rejected = (flat_map find_all selected, [])
  ∧ ∀ x, x ∉ find_all x.
Proof.
  unfold SelectStar_evaluate, SelectAll_evaluate.
  rewrite SelectAll_loop. simpl.
  split_and!; [done | done | apply find_all_excludes_self].
Qed.

(** C7, as stated, fails on a tag with one tag below it: the step selects
    the lower tag only, where the claim has the tag itself selected first. *)
Lemma SelectAll_omits_the_node_itself :
  let p := mkTag "p" ∅ "" [] in
  let x := mkTag "div" ∅ "" [p] in
  SelectAll_evaluate [x] [] = ([p], [])
  ∧ self_then_descendants [x] = [x; p]
  ∧ SelectAll_evaluate [x] [] ≠ (self_then_descendants [x], []).
Proof. split_and!; [reflexivity | reflexivity | discriminate]. Qed.

(** ** The [text] step of the path compiler *)

Lemma index_lookup (t : string) (tokens : list string) (j : nat) :
  index t tokens = Ok j → tokens !! j = Some t.
Proof.
  revert j. induction tokens as [|u tokens IH]; intros j; simpl; [done |].
  destruct (String.eqb_spec u t) as [-> | Hne].
  - by intros [= <-].
  - destruct (index t tokens) as [i | e]; simpl; [| done].
    intros [= <-]. by apply IH.
Qed.

(** Whatever precedes it, a [text] token in last position makes the loop
    raise: the tokens after it are read without a bound check. *)
Lemma syntax_loop_final_text (pre : list string) (skip : nat) (nodes : list Step) :
  (skip ≤ List.length pre)%nat →
  ∃ e, syntax_loop (pre ++ ["text"]) skip nodes = Raise e.
Proof.
  revert skip nodes. induction pre as [|t pre IH]; intros skip nodes Hskip.
  { destruct skip; [| simpl in Hskip; lia]. by exists IndexError. }
  destruct skip as [|k]; [| apply IH; simpl in Hskip; lia].
  cbn [app syntax_loop].
  destruct (String.eqb_spec t "[") as [-> | _].
  { destruct (index "]" ("[" :: pre ++ ["text"])) as [j | e] eqn:Hj;
      cbn [bind]; [| by eexists].
    destruct (compile_predicate _) as [root | e]; cbn [bind]; [| by eexists].
    apply IH. apply index_lookup in Hj.
    destruct j as [|j]; [done |]. cbn in Hj.
    destruct (decide (j < List.length pre)%nat) as [Hlt | Hge]; [lia |].
    assert (j = List.length pre) as ->.
    { apply lookup_lt_Some in Hj. rewrite length_app in Hj. simpl in Hj. lia. }
    by rewrite (list_lookup_middle pre [] "text") in Hj. }
  destruct (String.eqb t "/"); [apply IH; lia |].
  destruct (String.eqb t "//"); [apply IH; lia |].
  destruct (String.eqb t "*"); [apply IH; lia |].
  destruct (startswith t "@"); [apply IH; lia |].
  destruct (String.eqb t "text").
  { destruct pre as [|t1 pre]; [apply (IH 0); simpl; lia |].
    cbn [app]. destruct (String.eqb t1 "("); [| apply IH; lia].
    destruct pre as [|t2 pre]; [apply IH; simpl; lia |].
    cbn [app]. destruct (String.eqb t2 ")"); apply IH; simpl; lia. }
  destruct (is_tag_name t); apply IH; lia.
Qed.

(** X27.  Every token stream that ends with the token [text] fails to
    compile, whatever precedes it. *)
Lemma final_text_never_compiles (pre : list string) :
  ∃ e, xpath_to_syntax_tree (pre ++ ["text"]) = Raise e.
Proof. apply syntax_loop_final_text. lia. Qed.

(** C8.  The claim does not hold of the code: a token stream that ends with
    the bare token [text] raises [IndexError], while the same stream followed
    by the two parentheses compiles to a list ending in [SelectText]. *)
Theorem bare_text_at_end_raises_IndexError :
  xpath_to_syntax_tree ["/"; "a"; "/"; "text"] = Raise IndexError
  ∧ xpath_to_syntax_tree ["/"; "a"; "/"; "text"; "("; ")"]
    = Ok [SelectFromRootNode; SelectHTMLTag "a"; SelectFromRootNode; SelectText].
Proof. split; reflexivity. Qed.

(** ** Numeric tokens in the shunting-yard pass *)

Ltac digit_cases t H :=
  destruct t as [|[[] [] [] [] [] [] [] []] ?]; try discriminate H.

(** A token that begins with a digit is none of the tokens the loop handles
    before its last case, and it is not an operand for [is_operand]. *)
Lemma digit_token_class (t : string) :
  starts_with_digit t = true →
  String.eqb t "," = false ∧ String.eqb t " " = false
  ∧ in_list t l_b = false ∧ in_list t r_b = false ∧ is_operand t = false.
Proof. intros H. digit_cases t H; by repeat split. Qed.

(** The loop handles a numeric token in its operator case: it pops the
    operators that bind at least as tightly and pushes the token onto the
    operator stack. *)
Lemma numeric_token_takes_operator_case
    (t : string) (rest operator_stack out : list string) :
  starts_with_digit t = true →
  postfix_loop (t :: rest) operator_stack out
  = let '(stack1, out1) := pop_operators t operator_stack out in
    postfix_loop rest (t :: stack1) out1.
Proof.
  intros H. destruct (digit_token_class t H) as (H1 & H2 & H3 & H4 & H5).
  cbn [postfix_loop]. by rewrite H1, H2, H3, H4, H5.
Qed.

(** C6.  The claim does not hold of the code: in [[@a != 5]] the token [5]
    is handled as an operator, so [!=] is moved to the output before it and
    [5] comes last; the tree builder, for which [5] is an operand, then
    meets [!=] with one operand on its stack.  With [5] appended directly,
    the postfix order would be [@a 5 !=], which the tree builder accepts. *)
Theorem numeric_token_is_pushed_as_operator :
  _predicate_to_postfix ["["; "@a"; "!="; "5"; "]"] = Ok ["@a"; "!="; "5"]
  ∧ _predicate_postfix_to_tree ["@a"; "!="; "5"] = Raise IndexError
  ∧ _predicate_postfix_to_tree ["@a"; "5"; "!="]
    = Ok (Comparison NotEqual (NumberLiteral 5) (AttributeName "a")).
Proof. split_and!; reflexivity. Qed.

(** ** Lazy validation of comparison operands *)

Lemma mismatched_literals_raise_at_evaluation
    (set_to_list : list Tag → list Tag) (op : comparison_class)
    (n : Z) (s : string) (selected rejected : list Tag) :
  evaluate set_to_list (Comparison op (StringLiteral s) (NumberLiteral n))
    selected rejected = Raise (SyntaxError mismatched_operands)
  ∧ evaluate set_to_list (Comparison op (NumberLiteral n) (StringLiteral s))
      selected rejected = Raise (SyntaxError mismatched_operands).
Proof. split; reflexivity. Qed.

Lemma invalid_child_raises_at_evaluation
    (set_to_list : list Tag → list Tag) (op : comparison_class)
    (child0 child1 : Expression) (selected rejected : list Tag) :
  is_operand_class child0 && is_operand_class child1 = false →
  evaluate set_to_list (Comparison op child0 child1) selected rejected
  = Raise (SyntaxError invalid_arguments).
Proof.
  intros H. cbn [evaluate]. unfold Comparison_evaluate, _check_arguments.
  destruct (is_operand_class child1); [| done].
  destruct (is_operand_class child0); [done | done].
Qed.





(** C5.  The claim does not hold of the code in one operand order of one
    operator: the predicate [['x' != 5]] does not compile, it raises
    [IndexError] in the tree builder.  In postfix order [['x' 5 !=]] the same
    comparison is built without a check and raises the mismatch at each
    evaluation. *)
Theorem string_not_equal_number_does_not_compile :
  compile_predicate ["["; "'x'"; "!="; "5"; "]"] = Raise IndexError
  ∧ _predicate_postfix_to_tree ["'x'"; "5"; "!="]
    = Ok (Comparison NotEqual (NumberLiteral 5) (StringLiteral "x"))
  ∧ ∀ set_to_list selected rejected,
      evaluate set_to_list
        (Comparison NotEqual (NumberLiteral 5) (StringLiteral "x"))
        selected rejected
      = Raise (SyntaxError mismatched_operands).
Proof. split_and!; reflexivity. Qed.

(** ** Comparisons between an attribute and a literal *)

Lemma comprehension_total (f : Tag → bool) (l : list Tag) :
  comprehension (λ x, Ok (f x)) l = Ok (List.filter f l).
Proof.
  induction l as [|x l IH]; [done |].
  cbn [comprehension List.filter bind]. rewrite IH. cbn [bind].
  by destruct (f x).
Qed.

Lemma comprehension_ext (f g : Tag → result bool) (l : list Tag) :
  (∀ x, f x = g x) → comprehension f l = comprehension g l.
Proof.
  intros H. induction l as [|x l IH]; [done |].
  cbn [comprehension]. by rewrite H, IH.
Qed.

Lemma comprehension_elem (f : Tag → result bool) (l p : list Tag) (x : Tag) :
  comprehension f l = Ok p → x ∈ p → x ∈ l.
Proof.
  revert p. induction l as [|y l IH]; intros p; cbn [comprehension].
  - intros [= <-]. done.
  - destruct (f y) as [b | e]; cbn [bind]; [| done].
    destruct (comprehension f l) as [q | e]; cbn [bind]; [| done].
    intros [= <-]. destruct b.
    + rewrite !elem_of_cons. intros [-> | H]; [by left | right; by apply IH with q].
    + rewrite elem_of_cons. intros H. right. by apply IH with q.
Qed.

(** [[x for x in l if x not in pos]] when [pos] is [l] filtered by [f]. *)
Lemma rest_of_filter (f : Tag → bool) (l : list Tag) :
  List.filter (λ x, negb (py_in x (List.filter f l))) l
  = List.filter (λ x, negb (f x)) l.
Proof.
  apply filter_ext_in. intros x Hx. f_equal.
  apply list_elem_of_In in Hx.
  destruct (f x) eqn:E.
  - apply py_in_spec, elem_of_bool_filter. done.
  - apply py_in_false. rewrite elem_of_bool_filter. intros [_ H]. congruence.
Qed.

(** X6.  With the attribute as second child ([@a OP 'v'] in infix order) the
    comparison partitions the input selected list as C2 says. *)
Lemma attribute_then_string_partitions
    (set_to_list : list Tag → list Tag) (op : comparison_class) (a v : string)
    (selected rejected : list Tag) :
  evaluate set_to_list (Comparison op (StringLiteral v) (AttributeName a))
    selected rejected
  = Ok (Some (List.filter (attribute_on_left op a v) selected,
              List.filter (λ x, negb (attribute_on_left op a v x)) selected)).
Proof.
  cbn [evaluate]. unfold Comparison_evaluate. cbn.
  rewrite (comprehension_ext _ (λ x, Ok (attribute_on_left op a v x))).
  - rewrite comprehension_total. cbn [bind]. by rewrite rest_of_filter.
  - intros x. unfold attribute_on_left. by destruct (attrs x !! a).
Qed.

(** X8.  With the attribute as first child (['v' OP @a] in infix order) the
    literal branch runs: the literal is compared once with the {e name} of
    the attribute, and no node is looked at. *)
Lemma string_then_attribute_compares_the_name
    (set_to_list : list Tag → list Tag) (op : comparison_class) (a v : string)
    (selected rejected : list Tag) :
  evaluate set_to_list (Comparison op (AttributeName a) (StringLiteral v))
    selected rejected
  = Ok (Some (if str_compare op v a then (selected, rejected)
              else ([], selected))).
Proof.
  cbn [evaluate]. unfold Comparison_evaluate. cbn.
  by destruct (str_compare op v a).
Qed.

(** X7.  With a number literal the attribute value, a string, is compared with an
    integer: an ordering operator raises [TypeError] as soon as a node of the
    input carries the attribute. *)
Lemma attribute_ordered_against_number_raises
    (set_to_list : list Tag → list Tag) (op : comparison_class) (a : string)
    (n : Z) (selected rejected : list Tag) :
  is_ordering op = true →
  Exists (λ x, is_Some (attrs x !! a)) selected →
  evaluate set_to_list (Comparison op (NumberLiteral n) (AttributeName a))
    selected rejected
  = Raise TypeError.
Proof.
  intros Hop Hex. cbn [evaluate]. unfold Comparison_evaluate. cbn.
  match goal with
  | |- bind ?c _ = _ => assert (c = Raise TypeError) as ->; [| done]
  end.
  induction Hex as [x l [v Hv] | x l _ IH]; cbn [comprehension].
  - rewrite Hv. by destruct op.
  - rewrite IH. by destruct (attrs x !! a), op.
Qed.

(** C2.  The claim does not hold of the code in the order where the literal
    is the second-popped child: [['x' = @a]] on a node whose attribute [a] is
    ["x"] selects nothing and rejects the node, because ["x"] is compared
    with the name ["a"].  In the other order the node is selected. *)
Theorem literal_left_of_attribute_is_not_compared_with_its_value :
  let x := mkTag "div" {[ "a" := "x" ]} "" [] in
  compile_predicate ["["; "'x'"; "="; "@a"; "]"]
  = Ok (Comparison Equal (AttributeName "a") (StringLiteral "x"))
  ∧ attribute_on_right Equal "x" "a" x = true
  ∧ (∀ set_to_list,
       evaluate set_to_list
         (Comparison Equal (AttributeName "a") (StringLiteral "x")) [x] []
       = Ok (Some ([], [x])))
  ∧ compile_predicate ["["; "@a"; "="; "'x'"; "]"]
    = Ok (Comparison Equal (StringLiteral "x") (AttributeName "a"))
  ∧ (∀ set_to_list,
       evaluate set_to_list
         (Comparison Equal (StringLiteral "x") (AttributeName "a")) [x] []
       = Ok (Some ([x], []))).
Proof. split_and!; reflexivity. Qed.

(** ** LogicalAnd and LogicalOr *)

Lemma filter_by_itself (a : list Tag) : List.filter (λ x, py_in x a) a = a.
Proof.
  assert (H : ∀ l, (∀ x, x ∈ l → x ∈ a) → List.filter (λ x, py_in x a) l = l).
  { induction l as [|y l IH]; intros Hl; [done |].
    cbn [List.filter].
    rewrite (proj2 (py_in_spec y a)) by (apply Hl; left).
    rewrite IH; [done |]. intros x Hx. apply Hl. by right. }
  by apply H.
Qed.

(** Both reads in [LogicalAnd.evaluate] and [LogicalOr.evaluate] are of
    [children[0]]: the result does not depend on the second child. *)
Lemma logical_second_child_is_not_read
    (set_to_list : list Tag → list Tag) (child0 child1 child1' : Expression)
    (selected rejected : list Tag) :
  evaluate set_to_list (LogicalAnd child0 child1) selected rejected
  = evaluate set_to_list (LogicalAnd child0 child1') selected rejected
  ∧ evaluate set_to_list (LogicalOr child0 child1) selected rejected
    = evaluate set_to_list (LogicalOr child0 child1') selected rejected.
Proof. split; reflexivity. Qed.

(** The selected list of a [LogicalAnd] is that of its first child. *)
Lemma LogicalAnd_selects_what_its_first_child_selects
    (set_to_list : list Tag → list Tag) (child0 child1 : Expression)
    (selected rejected a b : list Tag) :
  evaluate set_to_list child0 selected rejected = Ok (Some (a, b)) →
  ∃ neg, evaluate set_to_list (LogicalAnd child0 child1) selected rejected
         = Ok (Some (a, neg)).
Proof.
  intros H. cbn [evaluate]. rewrite H. cbn [unpack bind].
  rewrite filter_by_itself. by eexists.
Qed.

(** C1.  The claim does not hold of the code: [[@a > '1' and @b > '2']]
    compiles to a [LogicalAnd] whose first child is [@b > '2'] and whose
    second child is [@a > '1'].  On a node with [a = "0"] and [b = "3"] the
    second child selects nothing, so the intersection is empty, but the
    [LogicalAnd] selects the node: it reads its first child twice. *)
Theorem LogicalAnd_evaluates_its_first_child_twice :
  let x := mkTag "div" {[ "a" := "0"; "b" := "3" ]} "" [] in
  let P := Comparison GreaterThan (StringLiteral "1") (AttributeName "a") in
  let Q := Comparison GreaterThan (StringLiteral "2") (AttributeName "b") in
  compile_predicate ["["; "@a"; ">"; "'1'"; "and"; "@b"; ">"; "'2'"; "]"]
  = Ok (LogicalAnd Q P)
  ∧ ∀ set_to_list,
      evaluate set_to_list P [x] [] = Ok (Some ([], [x]))
      ∧ evaluate set_to_list Q [x] [] = Ok (Some ([x], []))
      ∧ evaluate set_to_list (LogicalAnd Q P) [x] []
        = Ok (Some ([x], set_to_list [])).
Proof. split; [reflexivity |]. intros stl. split_and!; reflexivity. Qed.

(** The query of the scenario of C1, [[@a='1' and @b='2']]: [=] has the
    lowest precedence, so the tree is a comparison whose operands are a
    [LogicalAnd] and a comparison, and its evaluation raises. *)
Lemma equality_binds_weaker_than_and :
  let x := mkTag "div" {[ "a" := "1"; "b" := "3" ]} "" [] in
  let e :=
    Comparison Equal (StringLiteral "2")
      (Comparison Equal
         (LogicalAnd (AttributeName "b") (StringLiteral "1"))
         (AttributeName "a")) in
  compile_predicate ["["; "@a"; "="; "'1'"; "and"; "@b"; "="; "'2'"; "]"] = Ok e
  ∧ ∀ set_to_list,
      evaluate set_to_list e [x] [] = Raise (SyntaxError invalid_arguments).
Proof. split; [reflexivity |]. intros stl. reflexivity. Qed.

(** ** Where the outputs of a predicate come from *)

Lemma disjoint_nil (l : list Tag) : disjoint [] l.
Proof. intros x Hx. by apply elem_of_nil in Hx. Qed.

Lemma dedup_elem (l : list Tag) (x : Tag) : x ∈ dedup l ↔ x ∈ l.
Proof.
  induction l as [|y l IH]; [done |]. cbn [dedup].
  destruct (py_in y l) eqn:E.
  - rewrite IH, elem_of_cons. apply py_in_spec in E. naive_solver.
  - by rewrite !elem_of_cons, IH.
Qed.

Lemma Comparison_evaluate_cases (op : comparison_class) (r l : Expression)
    (pos neg s r' : list Tag) :
  Comparison_evaluate op r l pos neg = Ok (Some (s, r')) →
  (is_AttributeName l = false ∧ s = pos ∧ r' = neg)
  ∨ (s = [] ∧ r' = pos)
  ∨ ((∀ x, x ∈ s → x ∈ pos)
     ∧ r' = List.filter (λ x, negb (py_in x s)) pos).
Proof.
  unfold Comparison_evaluate.
  destruct (_check_arguments r l); cbn [bind]; [| done].
  destruct (is_AttributeName l) eqn:El; cbn [negb andb].
  - destruct (is_AttributeName r);
      destruct (value_of l), (value_of r); cbn [bind]; try done;
      match goal with
      | |- context [comprehension ?f pos] =>
          destruct (comprehension f pos) as [p | e] eqn:Ep; cbn [bind];
          [| done]
      end;
      intros [= <- <-]; right; right;
      (split; [intros x; by apply comprehension_elem with (1 := Ep) | done]).
  - destruct (value_of l), (value_of r); cbn [bind]; try done.
    destruct (py_compare _ _ _) as [[] | e]; cbn [bind]; try done;
      intros [= <- <-]; auto.
Qed.

Lemma Text_evaluate_partitions (k : text_class) (child0 child1 : Expression)
    (pos neg s r : list Tag) :
  Text_evaluate k child0 child1 pos neg = Ok (Some (s, r)) →
  (∀ x, x ∈ s ++ r → x ∈ pos) ∧ disjoint s r.
Proof.
  unfold Text_evaluate. intros [= <- <-]. split.
  - intros x. rewrite elem_of_app, !elem_of_bool_filter. naive_solver.
  - intros x. rewrite !elem_of_bool_filter. intros [_ H1] [_ H2].
    destruct (text_arguments child0 child1) as [[atr val] |]; [| done].
    destruct (attrs x !! atr); [| done].
    rewrite H1 in H2. done.
Qed.

Section Outputs.

Variable set_to_list : list Tag → list Tag.
Hypothesis set_to_list_elem : ∀ l x, x ∈ set_to_list l ↔ x ∈ l.

Lemma logical_outputs (a b s r : list Tag) :
  (s = List.filter (λ x, py_in x a) a ∨ s = set_to_list (a ++ a)) →
  r = set_to_list (List.filter (λ x, negb (py_in x s)) (a ++ b ++ a ++ b)) →
  (∀ x, x ∈ s ++ r → x ∈ a ++ b) ∧ disjoint s r.
Proof.
  intros Hs ->. split.
  - intros x. rewrite elem_of_app, set_to_list_elem, elem_of_bool_filter.
    rewrite !elem_of_app. intros [Hx | [Hx _]]; [| naive_solver].
    destruct Hs as [-> | ->].
    + apply elem_of_bool_filter in Hx. naive_solver.
    + apply set_to_list_elem, elem_of_app in Hx. naive_solver.
  - intros x Hx. rewrite set_to_list_elem, elem_of_bool_filter.
    intros [_ H]. apply negb_true_iff, py_in_false in H. done.
Qed.

(** C3, as the code has it.  When the evaluation of a predicate returns a
    pair, every node of its outputs is a node of its input selected or of its
    input rejected list, and the outputs are disjoint whenever the inputs
    are.  For text predicates, comparisons whose second child is an attribute
    name, and [LogicalAnd]/[LogicalOr] over such a first child, every node of
    the outputs is in the input selected list and the outputs are disjoint
    for every input. *)
Theorem predicate_outputs_are_drawn_from_its_inputs
    (e : Expression) (selected rejected s r : list Tag) :
  evaluate set_to_list e selected rejected = Ok (Some (s, r)) →
  drawn_from s r selected rejected
  ∧ (disjoint selected rejected → disjoint s r)
  ∧ (selects_from_input e = true →
     (∀ x, x ∈ s ++ r → x ∈ selected) ∧ disjoint s r).
Proof.
  revert s r. induction e; intros s r; cbn [evaluate selects_from_input];
    try discriminate.
  - (* Comparison *)
    intros H. apply Comparison_evaluate_cases in H.
    unfold drawn_from, disjoint.
    destruct H as [(El & -> & ->) | [(-> & ->) | (Hs & ->)]].
    + rewrite El. split_and!; [done | done | done].
    + assert (Hnil : ∀ x, x ∈ selected → x ∈ selected) by done.
      split_and!.
      * intros x Hx. apply elem_of_app. by left.
      * intros _. apply disjoint_nil.
      * intros _. split; [done | apply disjoint_nil].
    + assert (Hd : ∀ x, x ∈ s → x ∉ List.filter (λ x, negb (py_in x s)) selected).
      { intros x Hx. rewrite elem_of_bool_filter. intros [_ H].
        apply negb_true_iff, py_in_false in H. done. }
      assert (Hin : ∀ x, x ∈ s ++ List.filter (λ x, negb (py_in x s)) selected
                         → x ∈ selected).
      { intros x. rewrite elem_of_app, elem_of_bool_filter. naive_solver. }
      split_and!; [| done | done].
      intros x Hx. apply elem_of_app. left. by apply Hin.
  - (* LogicalAnd *)
    destruct (evaluate set_to_list e1 selected rejected) as [[[a b] |] | err]
      eqn:E1; cbn [unpack bind]; try discriminate.
    intros [= <- <-].
    destruct (IHe1 a b eq_refl) as (Hin & Hdis & Hsel).
    destruct (logical_outputs a b _ _ (or_introl eq_refl) eq_refl)
      as [Hab Hd].
    split_and!; [| done |].
    + intros x Hx. apply Hin, Hab, Hx.
    + intros Hs. split; [| done]. intros x Hx. by apply (proj1 (Hsel Hs)), Hab.
  - (* LogicalOr *)
    destruct (evaluate set_to_list e1 selected rejected) as [[[a b] |] | err]
      eqn:E1; cbn [unpack bind]; try discriminate.
    intros [= <- <-].
    destruct (IHe1 a b eq_refl) as (Hin & Hdis & Hsel).
    destruct (logical_outputs a b _ _ (or_intror eq_refl) eq_refl)
      as [Hab Hd].
    split_and!; [| done |].
    + intros x Hx. apply Hin, Hab, Hx.
    + intros Hs. split; [| done]. intros x Hx. by apply (proj1 (Hsel Hs)), Hab.
  - (* LogicalNot *)
    intros [= <- <-]. unfold drawn_from, disjoint. split_and!; [| | done].
    + intros x. rewrite !elem_of_app. naive_solver.
    + intros H x Hx Hx'. by apply (H x).
  - intros H. apply Text_evaluate_partitions in H as [Hin Hd].
    split_and!; [| done | done].
    intros x Hx. apply elem_of_app. left. by apply Hin.
  - intros H. apply Text_evaluate_partitions in H as [Hin Hd].
    split_and!; [| done | done].
    intros x Hx. apply elem_of_app. left. by apply Hin.
  - intros H. apply Text_evaluate_partitions in H as [Hin Hd].
    split_and!; [| done | done].
    intros x Hx. apply elem_of_app. left. by apply Hin.
Qed.

End Outputs.

(** C3, as stated, fails on [LogicalNot]: after [[@a = '1']] has split two
    nodes into a selected and a rejected one, [[not @b]] returns the rejected
    node as selected, a node that is not in its input selected list; and on
    overlapping inputs its outputs overlap. *)
Lemma LogicalNot_outputs_come_from_rejected :
  let x1 := mkTag "div" {[ "a" := "1" ]} "" [] in
  let x2 := mkTag "div" {[ "a" := "2" ]} "" [] in
  compile_predicate ["["; "@a"; "="; "'1'"; "]"]
  = Ok (Comparison Equal (StringLiteral "1") (AttributeName "a"))
  ∧ evaluate dedup (Comparison Equal (StringLiteral "1") (AttributeName "a"))
      [x1; x2] []
    = Ok (Some ([x1], [x2]))
  ∧ compile_predicate ["["; "not"; "@b"; "]"] = Ok (LogicalNot (AttributeName "b"))
  ∧ evaluate dedup (LogicalNot (AttributeName "b")) [x1] [x2]
    = Ok (Some ([x2], [x1]))
  ∧ ¬ (∀ x, x ∈ [x2] ++ [x1] → x ∈ [x1])
  ∧ evaluate dedup (LogicalNot (AttributeName "b")) [x1] [x1]
    = Ok (Some ([x1], [x1]))
  ∧ ¬ disjoint [x1] [x1].
Proof.
  intros x1 x2. split_and!; try reflexivity.
  - intros H. specialize (H x2 ltac:(by left)).
    apply list_elem_of_singleton in H. discriminate H.
  - intros H. apply (H x1); by left.
Qed.

Lemma predicate_outputs_witness :
  let x1 := mkTag "div" {[ "a" := "1" ]} "" [] in
  let x2 := mkTag "div" {[ "a" := "2" ]} "" [] in
  let e := Comparison Equal (StringLiteral "1") (AttributeName "a") in
  drawn_from [x1] [x2] [x1; x2] []
  ∧ (disjoint [x1; x2] [] → disjoint [x1] [x2])
  ∧ (selects_from_input e = true →
     (∀ x, x ∈ [x1] ++ [x2] → x ∈ [x1; x2]) ∧ disjoint [x1] [x2]).
Proof.
  intros x1 x2 e.
  apply (predicate_outputs_are_drawn_from_its_inputs dedup dedup_elem e
           [x1; x2] [] [x1] [x2]).
  reflexivity.
Defined.

(** ** Structural faults in the predicate compiler *)

Lemma tree_loop_app (p q : list string) (tree : list Expression) :
  tree_loop (p ++ q) tree = (let* tree1 := tree_loop p tree in tree_loop q tree1).
Proof.
  revert tree. induction p as [|t p IH]; intros tree; [done |].
  cbn [app tree_loop]. destruct (tree_step tree t); cbn [bind]; [apply IH | done].
Qed.

Lemma reduce2_too_few (C : Expression → Expression → Expression)
    (tree : list Expression) :
  (List.length tree < 2)%nat → reduce2 C tree = Raise IndexError.
Proof. destruct tree as [|a [|b tree]]; simpl; [done | done | lia]. Qed.

Lemma reduce1_too_few (C : Expression → Expression) (tree : list Expression) :
  (List.length tree < 1)%nat → reduce1 C tree = Raise IndexError.
Proof. destruct tree; simpl; [done | lia]. Qed.

(** An operator token that needs more subtrees than the stack holds raises
    [IndexError]. *)
Lemma tree_step_too_few (tree : list Expression) (t : string) :
  (List.length tree < pops t)%nat → tree_step tree t = Raise IndexError.
Proof.
  unfold pops, tree_step. cbn [in_list existsb].
  destruct (startswith t "@"); [cbn; lia |].
  destruct (startswith t "'"); [cbn; lia |].
  destruct (starts_with_digit t); [cbn; lia |].
  cbn [orb].
  do 8 (match goal with
        | |- context [if String.eqb t ?s then reduce2 _ _ else _] =>
            destruct (String.eqb t s); cbn [orb]; [apply reduce2_too_few |]
        end).
  destruct (String.eqb t "not"); [apply reduce1_too_few |].
  do 3 (match goal with
        | |- context [if String.eqb t ?s then reduce2 _ _ else _] =>
            destruct (String.eqb t s); cbn [orb]; [apply reduce2_too_few |]
        end).
  destruct (String.eqb t "length"); [apply reduce1_too_few | lia].
Qed.

Lemma bottom_of_nonempty (tree : list Expression) :
  (0 < List.length tree)%nat → ∃ e, last tree = Some e ∧ bottom tree = Ok e.
Proof.
  intros H. unfold bottom. destruct (last tree) as [e |] eqn:E; [by exists e |].
  apply last_None in E. subst. simpl in H. lia.
Qed.

(** The loop run at a right bracket stops at a left bracket lying at the
    bottom of the stack. *)
Lemma pop_to_bracket_bottom (b : string) (stack out : list string) :
  in_list b l_b = true →
  pop_to_bracket (stack ++ [b]) out
  = (let '(stack1, out1) := pop_to_bracket stack out in (stack1 ++ [b], out1)).
Proof.
  intros Hb. revert out. induction stack as [|top below IH]; intros out.
  - cbn [app pop_to_bracket]. by rewrite Hb.
  - cbn [app pop_to_bracket]. destruct (in_list top l_b); cbn [negb]; [done |].
    apply IH.
Qed.

Lemma pop_operators_bottom (b t : string) (stack out : list string) :
  in_list b l_b = true →
  pop_operators t (stack ++ [b]) out
  = (let '(stack1, out1) := pop_operators t stack out in (stack1 ++ [b], out1)).
Proof.
  intros Hb. revert out. induction stack as [|top below IH]; intros out.
  - cbn [app pop_operators]. by rewrite Hb.
  - cbn [app pop_operators].
    destruct (negb (in_list top l_b) && _); [apply IH | done].
Qed.

(** A left bracket lying under the operator stack is never looked at by a
    run that succeeds. *)
Lemma postfix_loop_bottom (b : string) (tokens stack out res : list string) :
  in_list b l_b = true →
  postfix_loop tokens stack out = Ok res →
  postfix_loop tokens (stack ++ [b]) out = Ok res.
Proof.
  intros Hb. revert stack out.
  induction tokens as [|t tokens IH]; intros stack out; [done |].
  cbn [postfix_loop].
  destruct (String.eqb t ","); [apply IH |].
  destruct (String.eqb t " "); [apply IH |].
  destruct (in_list t l_b); [apply (IH (t :: stack)) |].
  destruct (in_list t r_b).
  { rewrite pop_to_bracket_bottom by done.
    destruct (pop_to_bracket stack out) as [[|top below] out1]; [done |].
    cbn [app]. destruct (in_list top l_b); [apply IH | apply (IH (top :: below))]. }
  destruct (is_operand t); [apply IH |].
  rewrite pop_operators_bottom by done.
  destruct (pop_operators t stack out) as [stack1 out1].
  apply (IH (t :: stack1)).
Qed.

Lemma pop_to_bracket_without_bracket (stack out : list string) :
  Forall (λ u, in_list u l_b = false) stack →
  fst (pop_to_bracket stack out) = [].
Proof.
  intros H. revert out. induction H as [|top below Htop _ IH]; intros out; [done |].
  cbn [pop_to_bracket]. rewrite Htop. cbn [negb]. apply IH.
Qed.

(** C4, as the code has it.  The predicate compiler has no structural check
    of its own.  (1) A slice whose postfix form leaves more than one subtree
    on the stack compiles, and the result is the bottom of the stack.
    (2) An operator token that pops more subtrees than the stack holds
    raises [IndexError].  (3) A right bracket met while the operator stack
    holds no left bracket raises [IndexError].  (4) A left bracket that is
    never closed is accepted: put in front of a slice that converts, it
    leaves the postfix output unchanged. *)
Theorem structural_faults_of_the_predicate_compiler :
  (∀ slice postfix tree,
     _predicate_to_postfix slice = Ok postfix →
     tree_loop postfix [] = Ok tree → (1 < List.length tree)%nat →
     ∃ e, last tree = Some e ∧ compile_predicate slice = Ok e)
  ∧ (∀ postfix tree t rest,
       tree_loop postfix [] = Ok tree → (List.length tree < pops t)%nat →
       _predicate_postfix_to_tree (postfix ++ t :: rest) = Raise IndexError)
  ∧ (∀ t rest stack out,
       in_list t r_b = true → Forall (λ u, in_list u l_b = false) stack →
       postfix_loop (t :: rest) stack out = Raise IndexError)
  ∧ (∀ b slice out,
       in_list b l_b = true → _predicate_to_postfix slice = Ok out →
       _predicate_to_postfix (b :: slice) = Ok out).
Proof.
  split_and!.
  - intros slice postfix tree Hpostfix Htree Hlen.
    unfold compile_predicate, _predicate_postfix_to_tree.
    rewrite Hpostfix. cbn [bind]. rewrite Htree. cbn [bind].
    apply bottom_of_nonempty. lia.
  - intros postfix tree t rest Htree Hlen. unfold _predicate_postfix_to_tree.
    rewrite tree_loop_app, Htree. cbn [bind tree_loop].
    by rewrite tree_step_too_few.
  - intros t rest stack out Ht Hstack. cbn [postfix_loop].
    assert (String.eqb t "," = false ∧ String.eqb t " " = false
            ∧ in_list t l_b = false) as (-> & -> & ->).
    { unfold r_b, in_list in Ht. cbn [existsb] in Ht.
      repeat (apply orb_true_iff in Ht as [Ht | Ht];
              [apply String.eqb_eq in Ht as ->; by repeat split |]).
      discriminate Ht. }
    rewrite Ht. pose proof (pop_to_bracket_without_bracket stack out Hstack) as E.
    destruct (pop_to_bracket stack out) as [stack1 out1]. cbn in E. by subst.
  - intros b slice out Hb Hslice. unfold _predicate_to_postfix.
    cbn [postfix_loop]. rewrite Hb.
    assert (String.eqb b "," = false ∧ String.eqb b " " = false) as (-> & ->).
    { unfold l_b, in_list in Hb. cbn [existsb] in Hb.
      repeat (apply orb_true_iff in Hb as [Hb | Hb];
              [apply String.eqb_eq in Hb as ->; by split |]).
      discriminate Hb. }
    by apply (postfix_loop_bottom b slice [] []).
Qed.

(** C4, as stated, fails on a slice with two operands and no operator: the
    reduction ends with two subtrees on the stack and the compiler returns
    the first of them.  A left bracket that is never closed raises nothing
    either. *)
Lemma two_roots_compile_without_error :
  _predicate_to_postfix ["["; "@a"; "@b"; "]"] = Ok ["@a"; "@b"]
  ∧ tree_loop ["@a"; "@b"] [] = Ok [AttributeName "b"; AttributeName "a"]
  ∧ compile_predicate ["["; "@a"; "@b"; "]"] = Ok (AttributeName "a")
  ∧ compile_predicate ["["; "("; "@a"; "="; "'1'"; "]"]
    = Ok (Comparison Equal (StringLiteral "1") (AttributeName "a")).
Proof. split_and!; reflexivity. Qed.

Lemma structural_faults_witness :
  (∃ e, last [AttributeName "b"; AttributeName "a"] = Some e
        ∧ compile_predicate ["["; "@a"; "@b"; "]"] = Ok e)
  ∧ _predicate_postfix_to_tree (["@a"] ++ "=" :: ["'1'"]) = Raise IndexError
  ∧ postfix_loop ["]"] ["="] ["@a"] = Raise IndexError
  ∧ _predicate_to_postfix ("[" :: ["["; "@a"; "]"]) = Ok ["@a"].
Proof.
  destruct structural_faults_of_the_predicate_compiler as (H1 & H2 & H3 & H4).
  split_and!.
  - apply (H1 _ ["@a"; "@b"]); [reflexivity | reflexivity | vm_compute; lia].
  - apply (H2 ["@a"] [AttributeName "a"]); [reflexivity | vm_compute; lia].
  - apply H3; [reflexivity | by repeat constructor].
  - apply H4; reflexivity.
Defined.

(** * Further properties of the code *)

(** ** Operand checks of comparisons *)

(** X1.  [_check_arguments] does not depend on the order of the two
    children, and it accepts exactly the pairs of operands in which an
    attribute name occurs or both literals are of the same class. *)
Theorem check_arguments_symmetric_and_exact (r l : Expression) :
  _check_arguments r l = _check_arguments l r
  ∧ (_check_arguments r l = Ok tt ↔ comparable_classes r l = true).
Proof. destruct r, l; (split; [reflexivity | split; (done || discriminate)]). Qed.

Lemma comprehension_raises_TypeError (f : Tag → result bool) (l : list Tag)
    (e : exn) :
  (∀ x e', f x = Raise e' → e' = TypeError) →
  comprehension f l = Raise e → e = TypeError.
Proof.
  intros Hf. induction l as [|x l IH]; cbn [comprehension]; [done |].
  destruct (f x) as [b | e'] eqn:Ex; cbn [bind].
  - destruct (comprehension f l); cbn [bind]; [done |].
    intros [= <-]. by apply IH.
  - intros [= <-]. by apply Hf with x.
Qed.

Lemma py_compare_raises_TypeError (op : comparison_class) (a b : pyvalue)
    (e : exn) :
  py_compare op a b = Raise e → e = TypeError.
Proof. destruct a, b, op; cbn; congruence. Qed.

(** X2.  The evaluation of a comparison never returns [None] and never
    fails on a missing [value]: it returns a pair, or raises [SyntaxError]
    (exactly when [_check_arguments] rejects the children), or raises
    [TypeError] (a string ordered against an integer). *)
Theorem Comparison_evaluate_outcomes
    (set_to_list : list Tag → list Tag) (op : comparison_class)
    (child0 child1 : Expression) (selected rejected : list Tag) :
  match evaluate set_to_list (Comparison op child0 child1) selected rejected with
  | Ok (Some _) => _check_arguments child0 child1 = Ok tt
  | Ok None => False
  | Raise (SyntaxError msg) => _check_arguments child0 child1 = Raise (SyntaxError msg)
  | Raise TypeError => _check_arguments child0 child1 = Ok tt
  | Raise _ => False
  end.
Proof.
  cbn [evaluate]. unfold Comparison_evaluate.
  destruct (_check_arguments child0 child1) as [[] | e] eqn:Hc; cbn [bind].
  2:{ assert (∃ msg, e = SyntaxError msg) as [msg ->]; [| done].
      revert Hc. unfold _check_arguments.
      repeat match goal with |- context [if ?b then _ else _] => destruct b end;
        intros [= <-]; by eexists. }
  assert (Hv : ∃ v0 v1, value_of child0 = Ok v0 ∧ value_of child1 = Ok v1).
  { destruct child0, child1; try discriminate Hc; by eexists _, _. }
  destruct Hv as (v0 & v1 & -> & ->). cbn [bind].
  destruct (is_AttributeName child1); cbn [negb andb].
  - destruct (is_AttributeName child0);
      match goal with
      | |- context [comprehension ?f selected] =>
          destruct (comprehension f selected) as [p | e] eqn:Ep; cbn [bind];
          [done |];
          apply comprehension_raises_TypeError in Ep as ->; [done |];
          intros x e'; repeat case_match; try discriminate;
          apply py_compare_raises_TypeError
      end.
  - destruct (py_compare op v1 v0) as [[] | e] eqn:Ep; cbn [bind]; [done | done |].
    by apply py_compare_raises_TypeError in Ep as ->.
Qed.

(** ** Comparisons that look at the nodes *)

(** X3.  A comparison between two attribute names never raises: it selects
    the nodes that carry both attributes with [x.attrs[l] OP x.attrs[r]],
    [l] being the second child, and rejects the other input nodes. *)
Theorem two_attributes_partition
    (set_to_list : list Tag → list Tag) (op : comparison_class) (a b : string)
    (selected rejected : list Tag) :
  evaluate set_to_list (Comparison op (AttributeName b) (AttributeName a))
    selected rejected
  = Ok (Some (List.filter (both_attributes op a b) selected,
              List.filter (λ x, negb (both_attributes op a b x)) selected)).
Proof.
  cbn [evaluate]. unfold Comparison_evaluate. cbn.
  rewrite (comprehension_ext _ (λ x, Ok (both_attributes op a b x))).
  - rewrite comprehension_total. cbn [bind]. by rewrite rest_of_filter.
  - intros x. unfold both_attributes.
    by destruct (attrs x !! a), (attrs x !! b).
Qed.

(** X4.  Against a number literal the attribute value, a string, is never
    equal: [@a = n] selects nothing and rejects the whole input, [@a != n]
    selects exactly the nodes that carry the attribute. *)
Theorem attribute_equal_to_number
    (set_to_list : list Tag → list Tag) (a : string) (n : Z)
    (selected rejected : list Tag) :
  evaluate set_to_list (Comparison Equal (NumberLiteral n) (AttributeName a))
    selected rejected
  = Ok (Some ([], selected))
  ∧ evaluate set_to_list (Comparison NotEqual (NumberLiteral n) (AttributeName a))
      selected rejected
    = Ok (Some (List.filter (has_attribute a) selected,
                List.filter (λ x, negb (has_attribute a x)) selected)).
Proof.
  split; cbn [evaluate]; unfold Comparison_evaluate; cbn.
  - rewrite (comprehension_ext _ (λ x, Ok ((λ _, false) x))).
    + rewrite comprehension_total. cbn [bind].
      rewrite bool_filter_none by done. cbn [py_in existsb negb].
      by rewrite bool_filter_all.
    + intros x. by destruct (attrs x !! a).
  - rewrite (comprehension_ext _ (λ x, Ok (has_attribute a x))).
    + rewrite comprehension_total. cbn [bind]. by rewrite rest_of_filter.
    + intros x. unfold has_attribute. by destruct (attrs x !! a).
Qed.

Lemma comprehension_is_filter (f : Tag → result bool) (l p : list Tag) :
  comprehension f l = Ok p →
  p = List.filter (λ x, match f x with Ok true => true | _ => false end) l.
Proof.
  revert p. induction l as [|x l IH]; intros p; cbn [comprehension List.filter].
  - by intros [= <-].
  - destruct (f x) as [b | e]; cbn [bind]; [| done].
    destruct (comprehension f l) as [q | e]; cbn [bind]; [| done].
    intros [= <-]. rewrite (IH q eq_refl). by destruct b.
Qed.

Lemma filter_and_rest (f : Tag → bool) (l : list Tag) :
  List.filter f l ++ List.filter (λ x, negb (f x)) l ≡ₚ l.
Proof.
  induction l as [|x l IH]; [done |]. cbn [List.filter].
  destruct (f x); cbn [negb app].
  - by rewrite IH.
  - by rewrite <- Permutation_middle, IH.
Qed.

(** X5.  When the second child of a comparison is an attribute name and the
    evaluation returns, every node of the input selected list is in exactly
    one of the two outputs: selected followed by rejected is a rearrangement
    of the input selected list. *)
Theorem attribute_comparison_splits_the_input
    (set_to_list : list Tag → list Tag) (op : comparison_class)
    (child0 : Expression) (a : string) (selected rejected s r : list Tag) :
  evaluate set_to_list (Comparison op child0 (AttributeName a)) selected rejected
  = Ok (Some (s, r)) →
  s ++ r ≡ₚ selected.
Proof.
  cbn [evaluate]. unfold Comparison_evaluate.
  destruct (_check_arguments _ _); cbn [bind]; [| done].
  cbn [is_AttributeName negb andb value_of bind].
  destruct (is_AttributeName child0);
    destruct (value_of child0); cbn [bind]; try done;
    match goal with
    | |- context [comprehension ?f selected] =>
        destruct (comprehension f selected) as [p | e] eqn:Ep; cbn [bind];
        [| done]
    end;
    intros [= <- <-];
    rewrite (comprehension_is_filter _ _ _ Ep), rest_of_filter;
    apply filter_and_rest.
Qed.

Lemma attribute_comparison_splits_witness :
  let x1 := mkTag "div" {[ "a" := "1" ]} "" [] in
  let x2 := mkTag "div" {[ "b" := "2" ]} "" [] in
  [x1] ++ [x2] ≡ₚ [x1; x2].
Proof.
  intros x1 x2.
  apply (attribute_comparison_splits_the_input dedup SmallerThan
           (StringLiteral "5") "a" [x1; x2] [] [x1] [x2]).
  reflexivity.
Defined.

Lemma attribute_ordered_against_number_witness :
  let x := mkTag "div" {[ "id" := "42" ]} "" [] in
  evaluate dedup (Comparison GreaterThan (NumberLiteral 40) (AttributeName "id"))
    [x] []
  = Raise TypeError.
Proof.
  intros x.
  apply (attribute_ordered_against_number_raises dedup GreaterThan "id" 40 [x] []).
  - reflexivity.
  - apply Exists_cons_hd. by eexists.
Defined.

(** ** Text predicates *)

Lemma text_arguments_swap (child0 child1 : Expression) :
  text_arguments child0 child1 = text_arguments child1 child0.
Proof. destruct child0, child1; reflexivity. Qed.

(** X9.  A text predicate reads its two children in either order: swapping
    them does not change the result, and with an attribute name and a string
    literal it selects the nodes whose attribute is present and passes the
    string test, and rejects the other input nodes. *)
Theorem text_predicate_reads_children_in_either_order
    (set_to_list : list Tag → list Tag) (k : text_class)
    (child0 child1 : Expression) (a v : string) (selected rejected : list Tag) :
  evaluate set_to_list (text_predicate k child0 child1) selected rejected
  = evaluate set_to_list (text_predicate k child1 child0) selected rejected
  ∧ evaluate set_to_list (text_predicate k (AttributeName a) (StringLiteral v))
      selected rejected
    = Ok (Some (List.filter (attribute_passes k a v) selected,
                List.filter (λ x, negb (attribute_passes k a v x)) selected)).
Proof.
  split.
  - destruct k; cbn [text_predicate evaluate]; unfold Text_evaluate;
      by rewrite (text_arguments_swap child0 child1).
  - destruct k; cbn [text_predicate evaluate]; unfold Text_evaluate;
      cbn [text_arguments]; do 2 f_equal; f_equal;
      apply filter_ext; intros x; unfold attribute_passes;
      by destruct (attrs x !! a).
Qed.

(** X10.  A text predicate never raises, whatever its children are, and every
    node of the input selected list is in exactly one of its two outputs. *)
Theorem text_predicate_splits_the_input
    (set_to_list : list Tag → list Tag) (k : text_class)
    (child0 child1 : Expression) (selected rejected : list Tag) :
  ∃ s r,
    evaluate set_to_list (text_predicate k child0 child1) selected rejected
    = Ok (Some (s, r))
    ∧ s ++ r ≡ₚ selected.
Proof.
  assert (H : ∃ s r, Text_evaluate k child0 child1 selected rejected
                     = Ok (Some (s, r)) ∧ s ++ r ≡ₚ selected).
  { unfold Text_evaluate. eexists _, _. split; [reflexivity |].
    match goal with
    | |- List.filter ?f _ ++ List.filter ?g _ ≡ₚ _ =>
        rewrite (filter_ext g (λ x, negb (f x))); [apply filter_and_rest |]
    end.
    intros x. destruct (text_arguments child0 child1) as [[atr val] |]; [| done].
    by destruct (attrs x !! atr). }
  by destruct k.
Qed.

(** ** Logical combinators *)

(** X11.  When the first child of a [LogicalAnd] or [LogicalOr] returns the
    pair [(a, b)], the combinator returns a pair as well: its selected nodes
    are those of [a] (for [LogicalAnd] the list [a] itself) and its rejected
    nodes are those of [b] that are not in [a].  When the first child raises,
    the combinator raises the same exception; when it is an operand leaf,
    the combinator raises [TypeError]. *)
Theorem logical_combinators_follow_their_first_child
    (set_to_list : list Tag → list Tag) (child0 child1 : Expression)
    (selected rejected : list Tag) :
  (∀ l x, x ∈ set_to_list l ↔ x ∈ l) →
  match evaluate set_to_list child0 selected rejected with
  | Ok (Some (a, b)) =>
      (∃ r, evaluate set_to_list (LogicalAnd child0 child1) selected rejected
            = Ok (Some (a, r))
            ∧ ∀ x, x ∈ r ↔ x ∈ b ∧ x ∉ a)
      ∧ (∃ s r, evaluate set_to_list (LogicalOr child0 child1) selected rejected
                = Ok (Some (s, r))
                ∧ (∀ x, x ∈ s ↔ x ∈ a)
                ∧ ∀ x, x ∈ r ↔ x ∈ b ∧ x ∉ a)
  | Ok None =>
      evaluate set_to_list (LogicalAnd child0 child1) selected rejected
      = Raise TypeError
      ∧ evaluate set_to_list (LogicalOr child0 child1) selected rejected
        = Raise TypeError
  | Raise e =>
      evaluate set_to_list (LogicalAnd child0 child1) selected rejected = Raise e
      ∧ evaluate set_to_list (LogicalOr child0 child1) selected rejected = Raise e
  end.
Proof.
  intros Hset. cbn [evaluate].
  destruct (evaluate set_to_list child0 selected rejected) as [[[a b] |] | e];
    cbn [unpack bind]; [| done | done].
  split.
  - rewrite filter_by_itself. eexists. split; [reflexivity |].
    intros x. rewrite Hset, elem_of_bool_filter, negb_true_iff, py_in_false.
    rewrite !elem_of_app. naive_solver.
  - eexists _, _. split; [reflexivity |]. split.
    + intros x. rewrite Hset, elem_of_app. naive_solver.
    + intros x. rewrite Hset, elem_of_bool_filter, negb_true_iff, py_in_false.
      rewrite Hset, !elem_of_app. naive_solver.
Qed.

Lemma logical_combinators_witness :
  let x1 := mkTag "div" {[ "a" := "1" ]} "" [] in
  let x2 := mkTag "div" {[ "a" := "2" ]} "" [] in
  let P := Comparison Equal (StringLiteral "1") (AttributeName "a") in
  (∃ r, evaluate dedup (LogicalAnd P P) [x1; x2] [] = Ok (Some ([x1], r))
        ∧ ∀ x, x ∈ r ↔ x ∈ [x2] ∧ x ∉ [x1])
  ∧ (∃ s r, evaluate dedup (LogicalOr P P) [x1; x2] [] = Ok (Some (s, r))
            ∧ (∀ x, x ∈ s ↔ x ∈ [x1])
            ∧ ∀ x, x ∈ r ↔ x ∈ [x2] ∧ x ∉ [x1]).
Proof.
  intros x1 x2 P.
  exact (logical_combinators_follow_their_first_child dedup P P [x1; x2] []
           dedup_elem).
Defined.

(** ** Path steps *)

(** X12.  The [//] step works node by node: on a concatenation of two
    selected lists it returns the concatenation of what it returns on each,
    it ignores the rejected list it is given, and every node it selects lies
    strictly below one of the input nodes. *)
Theorem SelectAll_works_node_by_node
    (selected1 selected2 rejected rejected1 rejected2 : list Tag) :
  fst (SelectAll_evaluate (selected1 ++ selected2) rejected)
  = fst (SelectAll_evaluate selected1 rejected1)
    ++ fst (SelectAll_evaluate selected2 rejected2)
  ∧ ∀ y, y ∈ fst (SelectAll_evaluate selected1 rejected) →
         ∃ x, x ∈ selected1 ∧ y ∈ find_all x ∧ (Tag_size y < Tag_size x)%nat.
Proof.
  unfold SelectAll_evaluate. rewrite !SelectAll_loop. cbn [fst app]. split.
  - apply flat_map_app.
  - intros y Hy. apply list_elem_of_In, in_flat_map in Hy as (x & Hx & Hy).
    apply list_elem_of_In in Hx, Hy. exists x.
    split_and!; [done | done | by apply find_all_smaller].
Qed.





(** ** The shunting-yard pass *)

Lemma separator_cases (t : string) :
  is_separator t = (if String.eqb t "," then true else String.eqb t " ").
Proof. unfold is_separator. by destruct (String.eqb t ","). Qed.

(** X14.  Commas and blanks have no effect on the postfix form: removing
    them from the slice gives the same result, error included. *)
Theorem separators_are_ignored (tokens : list string) :
  _predicate_to_postfix (List.filter (λ t, negb (is_separator t)) tokens)
  = _predicate_to_postfix tokens.
Proof.
  unfold _predicate_to_postfix. generalize (@nil string) at 1 3 as stack.
  generalize (@nil string) as out.
  induction tokens as [|t tokens IH]; intros out stack; [done |].
  cbn [List.filter]. rewrite separator_cases.
  destruct (String.eqb t ",") eqn:E1; cbn [negb].
  { cbn [postfix_loop]. rewrite E1. apply IH. }
  destruct (String.eqb t " ") eqn:E2; cbn [negb].
  { cbn [postfix_loop]. rewrite E1, E2. apply IH. }
  cbn [postfix_loop]. rewrite E1, E2.
  destruct (in_list t l_b); [apply IH |].
  destruct (in_list t r_b).
  { destruct (pop_to_bracket stack out) as [[|top below] out1]; [done |].
    destruct (in_list top l_b); apply IH. }
  destruct (is_operand t); [apply IH |].
  destruct (pop_operators t stack out) as [stack1 out1]. apply IH.
Qed.

Section Postfix_invariant.

Variable P : string → Prop.

Let on_stack (u : string) : Prop := in_list u l_b = false → P u.

Lemma pop_to_bracket_preserves (stack out stack1 out1 : list string) :
  pop_to_bracket stack out = (stack1, out1) →
  Forall P out → Forall on_stack stack →
  Forall P out1 ∧ Forall on_stack stack1.
Proof.
  revert out. induction stack as [|top below IH]; intros out; cbn [pop_to_bracket].
  - intros [= <- <-]. done.
  - destruct (in_list top l_b) eqn:E; cbn [negb].
    + intros [= <- <-]. done.
    + intros H Hout Hstack. apply Forall_cons in Hstack as [Htop Hbelow].
      apply (IH _ H); [| done]. apply Forall_app. split; [done |].
      apply Forall_singleton. by apply Htop.
Qed.

Lemma pop_operators_preserves (t : string) (stack out stack1 out1 : list string) :
  pop_operators t stack out = (stack1, out1) →
  Forall P out → Forall on_stack stack →
  Forall P out1 ∧ Forall on_stack stack1.
Proof.
  revert out. induction stack as [|top below IH]; intros out; cbn [pop_operators].
  - intros [= <- <-]. done.
  - destruct (in_list top l_b) eqn:E; cbn [negb andb].
    + intros [= <- <-]. done.
    + destruct (_ || _).
      * intros H Hout Hstack. apply Forall_cons in Hstack as [Htop Hbelow].
        apply (IH _ H); [| done]. apply Forall_app. split; [done |].
        apply Forall_singleton. by apply Htop.
      * intros [= <- <-]. done.
Qed.

(** What holds of the payload tokens of the input, of the output so far and
    of the operators on the stack holds of the final output. *)
Lemma postfix_loop_preserves (tokens stack out res : list string) :
  postfix_loop tokens stack out = Ok res →
  Forall (λ t, is_payload t = true → P t) tokens →
  Forall P out → Forall on_stack stack →
  Forall P res.
Proof.
  revert stack out. induction tokens as [|t tokens IH]; intros stack out.
  { intros [= <-]. done. }
  cbn [postfix_loop]. intros H Htokens Hout Hstack.
  apply Forall_cons in Htokens as [Ht Htokens].
  unfold is_payload in Ht. rewrite separator_cases in Ht.
  destruct (String.eqb t ","); [by apply (IH _ _ H) |].
  destruct (String.eqb t " "); [by apply (IH _ _ H) |].
  destruct (in_list t l_b) eqn:El.
  { apply (IH _ _ H); [done | done |]. apply Forall_cons. split; [| done].
    intros E. congruence. }
  destruct (in_list t r_b).
  { destruct (pop_to_bracket stack out) as [stack1 out1] eqn:Ep.
    destruct (pop_to_bracket_preserves _ _ _ _ Ep Hout Hstack) as [Hout1 Hstack1].
    destruct stack1 as [|top below]; [done |].
    destruct (in_list top l_b); apply (IH _ _ H); try done.
    by apply Forall_cons in Hstack1 as [_ ?]. }
  cbn [negb andb] in Ht. specialize (Ht eq_refl).
  destruct (is_operand t).
  { apply (IH _ _ H); [done | | done]. apply Forall_app. split; [done |].
    by apply Forall_singleton. }
  destruct (pop_operators t stack out) as [stack1 out1] eqn:Ep.
  destruct (pop_operators_preserves _ _ _ _ _ Ep Hout Hstack) as [Hout1 Hstack1].
  apply (IH _ _ H); [done | done |]. apply Forall_cons. split; [| done].
  by intros _.
Qed.

End Postfix_invariant.

(** X15.  The postfix form is made of tokens of the slice only, and none of
    them is a bracket, a comma or a blank. *)
Theorem postfix_tokens_come_from_the_slice (tokens postfix : list string) :
  _predicate_to_postfix tokens = Ok postfix →
  Forall (λ t, t ∈ tokens ∧ is_payload t = true) postfix.
Proof.
  intros H.
  apply (postfix_loop_preserves (λ t, t ∈ tokens ∧ is_payload t = true)
           tokens [] [] postfix H); [| done | done].
  apply Forall_forall. intros t Ht Hp. done.
Qed.

Lemma postfix_tokens_witness :
  Forall (λ t, t ∈ ["["; "@a"; ","; "="; "("; "'1'"; ")"; "]"]
               ∧ is_payload t = true)
    ["@a"; "'1'"; "="].
Proof.
  apply (postfix_tokens_come_from_the_slice
           ["["; "@a"; ","; "="; "("; "'1'"; ")"; "]"] ["@a"; "'1'"; "="]).
  reflexivity.
Defined.

Lemma pop_to_bracket_operands (stack out : list string) :
  Forall (λ u, is_operand u = false) stack →
  List.filter is_operand (snd (pop_to_bracket stack out))
  = List.filter is_operand out
  ∧ Forall (λ u, is_operand u = false) (fst (pop_to_bracket stack out)).
Proof.
  intros H. revert out. induction H as [|top below Htop Hbelow IH]; intros out.
  { done. }
  cbn [pop_to_bracket]. destruct (in_list top l_b); cbn [negb].
  - split; [done | by apply Forall_cons].
  - destruct (IH (out ++ [top])) as [-> ?]. split; [| done].
    rewrite List.filter_app. cbn [List.filter]. rewrite Htop. apply app_nil_r.
Qed.

Lemma pop_operators_operands (t : string) (stack out : list string) :
  Forall (λ u, is_operand u = false) stack →
  List.filter is_operand (snd (pop_operators t stack out))
  = List.filter is_operand out
  ∧ Forall (λ u, is_operand u = false) (fst (pop_operators t stack out)).
Proof.
  intros H. revert out. induction H as [|top below Htop Hbelow IH]; intros out.
  { done. }
  cbn [pop_operators]. destruct (negb (in_list top l_b) && _).
  - destruct (IH (out ++ [top])) as [-> ?]. split; [| done].
    rewrite List.filter_app. cbn [List.filter]. rewrite Htop. apply app_nil_r.
  - split; [done | by apply Forall_cons].
Qed.

Lemma bracket_is_not_operand (t : string) :
  in_list t l_b = true ∨ in_list t r_b = true → is_operand t = false.
Proof.
  unfold in_list, l_b, r_b. cbn [existsb].
  intros [H | H];
    repeat (apply orb_true_iff in H as [H | H];
            [apply String.eqb_eq in H as ->; reflexivity |]);
    discriminate H.
Qed.

Lemma postfix_loop_operands (tokens stack out res : list string) :
  postfix_loop tokens stack out = Ok res →
  Forall (λ u, is_operand u = false) stack →
  List.filter is_operand res
  = List.filter is_operand out ++ List.filter is_operand tokens.
Proof.
  revert stack out. induction tokens as [|t tokens IH]; intros stack out.
  { intros [= <-] _. by rewrite app_nil_r. }
  cbn [postfix_loop List.filter]. intros H Hstack.
  destruct (String.eqb_spec t ",") as [-> | _]; [by apply (IH _ _ H) |].
  destruct (String.eqb_spec t " ") as [-> | _]; [by apply (IH _ _ H) |].
  destruct (in_list t l_b) eqn:El.
  { rewrite (bracket_is_not_operand t) by auto.
    apply (IH _ _ H). apply Forall_cons. split; [| done].
    apply bracket_is_not_operand. auto. }
  destruct (in_list t r_b) eqn:Er.
  { rewrite (bracket_is_not_operand t) by auto.
    destruct (pop_to_bracket_operands stack out Hstack) as [Hout Hst].
    destruct (pop_to_bracket stack out) as [[|top below] out1]; [done |].
    cbn [fst snd] in Hout, Hst. rewrite <- Hout.
    destruct (in_list top l_b); apply (IH _ _ H); [| done].
    by apply Forall_cons in Hst as [_ ?]. }
  destruct (is_operand t) eqn:Eo.
  { rewrite (IH _ _ H Hstack), List.filter_app. cbn [List.filter].
    rewrite Eo. by rewrite <- app_assoc. }
  destruct (pop_operators_operands t stack out Hstack) as [Hout Hst].
  destruct (pop_operators t stack out) as [stack1 out1].
  cbn [fst snd] in Hout, Hst. rewrite <- Hout.
  apply (IH _ _ H). by apply Forall_cons.
Qed.

(** X16.  The pass never reorders operands: the tokens of the postfix form
    that begin with [@] or a quote are those of the slice, in the same
    order. *)
Theorem operands_keep_their_order (tokens postfix : list string) :
  _predicate_to_postfix tokens = Ok postfix →
  List.filter is_operand postfix = List.filter is_operand tokens.
Proof. intros H. by apply (postfix_loop_operands tokens [] [] postfix H). Qed.

Lemma operands_keep_their_order_witness :
  List.filter is_operand ["@a"; "'1'"; ">"; "@b"; "'2'"; ">"; "and"]
  = List.filter is_operand
      ["["; "@a"; ">"; "'1'"; "and"; "@b"; ">"; "'2'"; "]"].
Proof.
  apply (operands_keep_their_order
           ["["; "@a"; ">"; "'1'"; "and"; "@b"; ">"; "'2'"; "]"]).
  reflexivity.
Defined.

Lemma pop_to_bracket_open (stack out : list string) :
  count_open (fst (pop_to_bracket stack out)) = count_open stack
  ∧ match fst (pop_to_bracket stack out) with
    | [] => True
    | top :: _ => in_list top l_b = true
    end.
Proof.
  revert out. induction stack as [|top below IH]; intros out; [done |].
  cbn [pop_to_bracket]. destruct (in_list top l_b) eqn:E; cbn [negb fst].
  - by rewrite E.
  - destruct (IH (out ++ [top])) as [-> ?]. split; [| done].
    unfold count_open. cbn [List.filter]. by rewrite E.
Qed.

Lemma pop_operators_open (t : string) (stack out : list string) :
  count_open (fst (pop_operators t stack out)) = count_open stack.
Proof.
  revert out. induction stack as [|top below IH]; intros out; [done |].
  cbn [pop_operators]. destruct (in_list top l_b) eqn:E; cbn [negb andb fst].
  - done.
  - destruct (_ || _); [| done]. rewrite IH.
    unfold count_open. cbn [List.filter]. by rewrite E.
Qed.

Lemma postfix_loop_brackets (tokens stack out : list string) :
  match postfix_loop tokens stack out with
  | Ok _ => brackets_close tokens (count_open stack) = true
  | Raise e => e = IndexError ∧ brackets_close tokens (count_open stack) = false
  end.
Proof.
  revert stack out. induction tokens as [|t tokens IH]; intros stack out; [done |].
  cbn [postfix_loop brackets_close]. rewrite separator_cases.
  destruct (String.eqb t ","); [apply IH |].
  destruct (String.eqb t " "); [apply IH |].
  destruct (in_list t l_b) eqn:El.
  { specialize (IH (t :: stack) out). unfold count_open in IH |- *.
    cbn [List.filter] in IH. rewrite El in IH. apply IH. }
  destruct (in_list t r_b).
  { destruct (pop_to_bracket_open stack out) as [Hcount Htop].
    destruct (pop_to_bracket stack out) as [[|top below] out1];
      cbn [fst] in Hcount, Htop; rewrite <- Hcount.
    - done.
    - rewrite Htop. unfold count_open. cbn [List.filter]. rewrite Htop.
      apply IH. }
  destruct (is_operand t); [apply IH |].
  pose proof (pop_operators_open t stack out) as Hcount.
  destruct (pop_operators t stack out) as [stack1 out1]. cbn [fst] in Hcount.
  specialize (IH (t :: stack1) out1). unfold count_open in IH, Hcount |- *.
  cbn [List.filter] in IH. rewrite El in IH. rewrite <- Hcount. apply IH.
Qed.

(** X17.  The pass succeeds exactly when every right bracket of the slice
    has a left bracket, of any shape, still open before it; otherwise it
    raises [IndexError], and it raises nothing else.  Left brackets that
    stay open at the end are no error. *)
Theorem postfix_pass_fails_only_on_unopened_bracket (tokens : list string) :
  match _predicate_to_postfix tokens with
  | Ok _ => brackets_close tokens 0 = true
  | Raise e => e = IndexError ∧ brackets_close tokens 0 = false
  end.
Proof. apply (postfix_loop_brackets tokens [] []). Qed.

(** ** The tree builder *)

Ltac operand_token a H :=
  destruct a as [|? ?]; [discriminate H |];
  unfold is_operand in H; cbn [startswith] in H;
  rewrite !andb_true_r in H;
  apply orb_true_iff in H as [H | H]; apply Ascii.eqb_eq in H as <-.

Ltac run_builder :=
  unfold compile_predicate, _predicate_to_postfix;
  cbn -[strip_quotes drop_first];
  unfold _predicate_postfix_to_tree, tree_step;
  cbn -[strip_quotes drop_first].

(** X18.  An infix comparison [a OP b] between two operand tokens compiles
    to the comparison node whose first child is the leaf of [b] and whose
    second child is the leaf of [a]; a text function call [f(a, b)] compiles
    likewise to the text predicate with children [b], [a]. *)
Theorem binary_predicates_compile_with_children_reversed
    (op : comparison_class) (k : text_class) (a b : string) :
  is_operand a = true → is_operand b = true →
  compile_predicate ["["; a; comparison_token op; b; "]"]
  = Ok (Comparison op (leaf b) (leaf a))
  ∧ compile_predicate ["["; text_token k; "("; a; ","; b; ")"; "]"]
    = Ok (text_predicate k (leaf b) (leaf a)).
Proof.
  intros Ha Hb. operand_token a Ha; operand_token b Hb;
    (split; [destruct op | destruct k]); run_builder; reflexivity.
Qed.

Lemma binary_predicates_compile_witness :
  compile_predicate ["["; "@a"; "<="; "'m'"; "]"]
  = Ok (Comparison SmallerThanOrEqual (leaf "'m'") (leaf "@a"))
  ∧ compile_predicate ["["; "contains"; "("; "@a"; ","; "'m'"; ")"; "]"]
    = Ok (TextContains (leaf "'m'") (leaf "@a")).
Proof.
  apply (binary_predicates_compile_with_children_reversed
           SmallerThanOrEqual Contains "@a" "'m'"); reflexivity.
Defined.

Lemma substring_of_append (s t : string) :
  substring 0 (String.length s) (s ++ t)%string = s.
Proof.
  induction s as [|c s IH].
  - change ("" +:+ t) with t. by destruct t.
  - change (String c s +:+ t) with (String c (s +:+ t)).
    cbn [String.length substring]. by rewrite IH.
Qed.

Lemma substring_whole (s : string) : substring 0 (String.length s) s = s.
Proof.
  induction s as [|c s IH]; cbn [String.length substring]; [done | by rewrite IH].
Qed.

Lemma length_of_append (s t : string) :
  String.length (s ++ t)%string = (String.length s + String.length t)%nat.
Proof.
  induction s as [|c s IH]; [done |].
  change (String c s +:+ t) with (String c (s +:+ t)).
  cbn [String.length Nat.add]. by rewrite IH.
Qed.

(** X19.  Operand tokens are read back exactly: the token [@s] gives the
    attribute name [s] and the token ['s'] gives the string literal [s],
    for every string [s], quotes and [@] inside [s] included. *)
Theorem operand_tokens_give_their_text (s : string) (tree : list Expression) :
  tree_step tree ("@" ++ s)%string = Ok (AttributeName s :: tree)
  ∧ tree_step tree ("'" ++ s ++ "'")%string = Ok (StringLiteral s :: tree).
Proof.
  change ("@" +:+ s) with (String "@" s).
  change ("'" +:+ s +:+ "'") with (String "'" (s +:+ "'")).
  unfold tree_step. cbn [startswith Ascii.eqb Bool.eqb andb]. split.
  - unfold drop_first. cbn [String.length substring].
    replace (S (String.length s) - 1)%nat with (String.length s) by lia.
    by rewrite substring_whole.
  - unfold strip_quotes. cbn [String.length substring].
    rewrite length_of_append. cbn [String.length].
    replace (S (String.length s + 1) - 2)%nat with (String.length s) by lia.
    by rewrite substring_of_append.
Qed.

(** X20.  The builder never looks at a token it does not know: a token that
    is no operand and none of the thirteen operator names leaves the stack
    as it is, so it can be removed from the postfix sequence without
    changing the result.  The tokens [+], [-], [mul] and [div] of the
    precedence table are such tokens. *)
Theorem unknown_tokens_are_dropped (p q : list string) (t : string) :
  pushes t = false → pops t = 0%nat →
  _predicate_postfix_to_tree (p ++ t :: q) = _predicate_postfix_to_tree (p ++ q).
Proof.
  intros Hpush Hpops.
  assert (Hstep : ∀ tree, tree_step tree t = Ok tree).
  { intros tree. revert Hpush Hpops. unfold pushes, pops, tree_step.
    cbn [in_list existsb].
    destruct (startswith t "@"); [done |].
    destruct (startswith t "'"); [done |].
    destruct (starts_with_digit t); [done |]. cbn [orb]. intros _.
    repeat match goal with
           | |- context [if String.eqb t ?s then _ else _] =>
               destruct (String.eqb t s); cbn [orb]; [discriminate |]
           end.
    done. }
  unfold _predicate_postfix_to_tree. rewrite !tree_loop_app.
  destruct (tree_loop p []) as [tree |]; cbn [bind tree_loop]; [| done].
  by rewrite Hstep.
Qed.

Lemma unknown_tokens_witness :
  Forall (λ t, _predicate_postfix_to_tree (["@a"; "@b"] ++ t :: ["="])
               = _predicate_postfix_to_tree (["@a"; "@b"] ++ ["="]))
    ["+"; "-"; "mul"; "div"].
Proof.
  repeat (apply Forall_cons; split);
    [apply (unknown_tokens_are_dropped ["@a"; "@b"] ["="]); reflexivity ..
    | apply Forall_nil; exact I].
Defined.


(** ** The path compiler *)

Lemma syntax_loop_plain (pre more : list string) (nodes : list Step) :
  Forall (λ t, is_plain t = true) pre →
  syntax_loop (pre ++ more) 0 nodes
  = syntax_loop more 0 (nodes ++ omap step_of_token pre).
Proof.
  intros H. revert nodes. induction H as [|t pre Ht _ IH]; intros nodes.
  { by rewrite app_nil_r. }
  cbn [app syntax_loop omap list_omap]. unfold step_of_token at 1.
  unfold is_plain in Ht. apply andb_true_iff in Ht as [H1 H2].
  apply negb_true_iff in H1, H2. rewrite H1, H2.
  repeat match goal with
         | |- context [if ?b then syntax_loop _ _ _ else _] =>
             destruct b; [rewrite IH, <- app_assoc; reflexivity |]
         end.
  apply IH.
Qed.

Lemma syntax_loop_skip (skipped rest : list string) (nodes : list Step) :
  syntax_loop (skipped ++ rest) (List.length skipped) nodes
  = syntax_loop rest 0 nodes.
Proof. induction skipped as [|t skipped IH]; [done | apply IH]. Qed.

Lemma index_first (t : string) (before after : list string) :
  t ∉ before → index t (before ++ t :: after) = Ok (List.length before).
Proof.
  induction before as [|u before IH]; intros Hnot; cbn [app index List.length].
  - by rewrite String.eqb_refl.
  - apply not_elem_of_cons in Hnot as [Hne Hnot].
    destruct (String.eqb_spec u t) as [-> | _]; [done |].
    by rewrite IH.
Qed.

Lemma index_absent (t : string) (tokens : list string) :
  t ∉ tokens → index t tokens = Raise ValueError.
Proof.
  induction tokens as [|u tokens IH]; intros Hnot; cbn [index]; [done |].
  apply not_elem_of_cons in Hnot as [Hne Hnot].
  destruct (String.eqb_spec u t) as [-> | _]; [done |].
  by rewrite IH.
Qed.

(** X24.  A token stream with no [[] and no [text] always compiles, one
    token at a time: [/], [//], [*], [@name] and a word of letters give their
    step, and every other token is passed over without an error. *)
Theorem plain_streams_compile_token_by_token (tokens : list string) :
  Forall (λ t, is_plain t = true) tokens →
  xpath_to_syntax_tree tokens = Ok (omap step_of_token tokens).
Proof.
  intros H. unfold xpath_to_syntax_tree.
  rewrite <- (app_nil_r tokens) at 1. by rewrite syntax_loop_plain.
Qed.

Lemma plain_streams_witness :
  xpath_to_syntax_tree ["//"; "div"; "/"; "*"; "|"; "/"; "@href"]
  = Ok (omap step_of_token ["//"; "div"; "/"; "*"; "|"; "/"; "@href"]).
Proof.
  apply plain_streams_compile_token_by_token.
  by repeat (apply Forall_cons; split).
Defined.

(** X25.  A predicate runs from its [[] to the first []] after it: the
    slice between them, brackets included, goes to the predicate compiler,
    its root is appended, and the scan goes on after the []].  When no []]
    follows the [[], the compiler raises [ValueError]. *)
Theorem predicate_runs_to_the_first_closing_bracket
    (pre inner rest : list string) :
  Forall (λ t, is_plain t = true) pre → "]" ∉ inner →
  xpath_to_syntax_tree (pre ++ "[" :: inner ++ "]" :: rest)
  = (let* root := compile_predicate ("[" :: inner ++ ["]"]) in
     syntax_loop rest 0 (omap step_of_token pre ++ [PredicateRoot root]))
  ∧ xpath_to_syntax_tree (pre ++ "[" :: inner) = Raise ValueError.
Proof.
  intros Hpre Hinner. unfold xpath_to_syntax_tree.
  rewrite !syntax_loop_plain by done. cbn [app syntax_loop String.eqb Ascii.eqb Bool.eqb].
  split.
  - assert (Hi : index "]" ("[" :: inner ++ "]" :: rest)
                 = Ok (S (List.length inner))).
    { apply (index_first "]" ("[" :: inner) rest).
      apply not_elem_of_cons. split; [done | done]. }
    rewrite Hi. cbn [bind take].
    assert (Ht : take (S (List.length inner)) (inner ++ "]" :: rest)
                 = inner ++ ["]"]).
    { clear. induction inner as [|u inner IH]; [done |].
      cbn [app List.length take]. by rewrite IH. }
    rewrite Ht.
    destruct (compile_predicate _) as [root | e]; cbn [bind]; [| done].
    rewrite <- (syntax_loop_skip (inner ++ ["]"]) rest).
    rewrite List.length_app, Nat.add_comm, <- app_assoc. done.
  - rewrite (index_absent "]" ("[" :: inner)); [done |].
    apply not_elem_of_cons. split; [done | done].
Qed.

Lemma predicate_runs_witness :
  xpath_to_syntax_tree
    (["//"; "a"] ++ "[" :: ["@id"; "="; "'x'"] ++ "]" :: ["/"; "b"])
  = (let* root := compile_predicate ("[" :: ["@id"; "="; "'x'"] ++ ["]"]) in
     syntax_loop ["/"; "b"] 0
       (omap step_of_token ["//"; "a"] ++ [PredicateRoot root]))
  ∧ xpath_to_syntax_tree (["//"; "a"] ++ "[" :: ["@id"; "="; "'x'"])
    = Raise ValueError.
Proof.
  apply (predicate_runs_to_the_first_closing_bracket
           ["//"; "a"] ["@id"; "="; "'x'"] ["/"; "b"]).
  - by repeat (apply Forall_cons; split).
  - intros H. repeat (apply elem_of_cons in H as [H | H]; [discriminate H |]).
    by apply elem_of_nil in H.
Defined.

(** X26.  After the token [text] the pair of parentheses is passed over
    when both follow; when the next token is not [(], the scan goes on at
    that token.  In both cases one [SelectText] step is appended. *)
Theorem text_step_passes_over_its_parentheses
    (pre rest : list string) (next : string) :
  Forall (λ t, is_plain t = true) pre → String.eqb next "(" = false →
  xpath_to_syntax_tree (pre ++ "text" :: "(" :: ")" :: rest)
  = syntax_loop rest 0 (omap step_of_token pre ++ [SelectText])
  ∧ xpath_to_syntax_tree (pre ++ "text" :: next :: rest)
    = syntax_loop (next :: rest) 0 (omap step_of_token pre ++ [SelectText]).
Proof.
  intros Hpre Hnext. unfold xpath_to_syntax_tree.
  rewrite !syntax_loop_plain by done. split.
  - reflexivity.
  - cbn [syntax_loop String.eqb Ascii.eqb Bool.eqb startswith]. by rewrite Hnext.
Qed.

Lemma text_step_witness :
  xpath_to_syntax_tree (["/"; "p"; "/"] ++ "text" :: "(" :: ")" :: ["b"])
  = syntax_loop ["b"] 0 (omap step_of_token ["/"; "p"; "/"] ++ [SelectText])
  ∧ xpath_to_syntax_tree (["/"; "p"; "/"] ++ "text" :: "/" :: ["b"])
    = syntax_loop ("/" :: ["b"]) 0
        (omap step_of_token ["/"; "p"; "/"] ++ [SelectText]).
Proof.
  apply (text_step_passes_over_its_parentheses ["/"; "p"; "/"] ["b"] "/").
  - by repeat (apply Forall_cons; split).
  - reflexivity.
Defined.


